(** * jupyterlab-hybrid-kernels: routing and spec-registry merging

    A shallow embedding of the TypeScript sources
    - [src/kernelspec.ts]   (HybridKernelSpecManager),
    - [src/kernel.ts]       (HybridKernelManager),
    - [src/kernelclient.ts] (HybridKernelClient),
    - [src/session.ts]      (HybridSessionManager),
    - [src/config.ts]       (RemoteServerConfig, getHybridKernelsMode),
    followed by the properties of the routing and merging layer. Line
    numbers in the comments are those of the class's own source file.

    Conventions.
    - JSON payloads are dynamically typed: they are values of [JsValue].
    - A JavaScript object used as a dictionary is a [gmap string _].
    - An [async] function is rendered sequentially in the monad [M]:
      it produces the log of calls made to the two backends together
      with either a value or a thrown error (a rejected promise).
    - Functions of the browser and of JupyterLab that the sources call
      ([new URL(..).origin], [URLExt.join], [encodeURIComponent]) are the
      fields of the class [Platform]; [browser] is a reference instance
      used to evaluate concrete inputs. *)

From Stdlib Require Import Ascii String.
From stdpp Require Import base option list gmap sets strings pretty.

Set Warnings "-register-all".
Set Default Proof Using "Type".

(* ===================================================================== *)
(** * JavaScript values *)
(* ===================================================================== *)

Module Js.

(** A JSON value as produced by [response.json()], extended with
    [undefined], the result of reading a property that is not there.
    Numbers are only inspected for truthiness, so integers suffice. *)
Inductive JsValue : Type :=
  | JUndefined
  | JNull
  | JBool (b : bool)
  | JNum (n : Z)
  | JStr (s : string)
  | JArr (l : list JsValue)
  | JObj (m : gmap string JsValue).

(** [!!v] *)
Definition truthy (v : JsValue) : bool :=
  match v with
  | JUndefined | JNull => false
  | JBool b => b
  | JNum n => negb (n =? 0)%Z
  | JStr s => negb (String.eqb s "")
  | JArr _ | JObj _ => true
  end.

Definition nullish (v : JsValue) : bool :=
  match v with
  | JUndefined | JNull => true
  | _ => false
  end.

(** [a ?? b] *)
Definition coalesce (a b : JsValue) : JsValue :=
  if nullish a then b else a.

(** [v[k]] for the property names the sources read ([spec], [resources],
    [name], [display_name], [language], [argv], [env], [metadata]): an own
    property of an object, [undefined] on every other value, none of these
    names being defined on the prototypes of strings, numbers, booleans or
    arrays. *)
Definition get_prop (v : JsValue) (k : string) : JsValue :=
  match v with
  | JObj m => default JUndefined (m !! k)
  | _ => JUndefined
  end.

Fixpoint chars (s : string) : list JsValue :=
  match s with
  | EmptyString => []
  | String c r => JStr (String c EmptyString) :: chars r
  end.

(** [Object.entries(v)] for a value that is neither [null] nor
    [undefined]: the own enumerable properties of an object, the indexed
    elements of an array or of a string, nothing for a number or a
    boolean. *)
Definition object_entries (v : JsValue) : list (string * JsValue) :=
  match v with
  | JObj m => map_to_list m
  | JArr l => imap (λ i x, (pretty i, x)) l
  | JStr s => imap (λ i x, (pretty i, x)) (chars s)
  | _ => []
  end.

(** [s.startsWith(p)] and [s.includes(p)] *)
Definition startsWith (s p : string) : bool := String.prefix p s.

Fixpoint includes (s p : string) : bool :=
  String.prefix p s ||
  match s with
  | EmptyString => false
  | String _ r => includes r p
  end.

(** Errors thrown by the code or by the collaborators it awaits. *)
Inductive JsError : Type :=
  | TypeError (msg : string)
  | Rejected (reason : string).

Inductive result (A : Type) : Type :=
  | Ok (a : A)
  | Throw (e : JsError).
Arguments Ok {A} a.
Arguments Throw {A} e.

Definition rbind {A B} (r : result A) (f : A → result B) : result B :=
  match r with
  | Ok a => f a
  | Throw e => Throw e
  end.

Definition is_ok {A} (r : result A) : bool :=
  match r with
  | Ok _ => true
  | Throw _ => false
  end.

End Js.
Export Js.

Notation "a ?? b" := (coalesce a b) (at level 45, left associativity).
Notation "'try!' x ← r ; k" := (rbind r (λ x, k))
  (at level 10, x name, r at level 100, k at level 200).

(* ===================================================================== *)
(** * Browser and JupyterLab functions used by the sources *)
(* ===================================================================== *)

Class Platform : Type := {
  (** [new URL(u).origin]; [None] when the constructor throws. *)
  url_origin : string → option string;
  (** [URLExt.join(base, part)] of [@jupyterlab/coreutils]. *)
  URLExt_join : string → string → string;
  (** [encodeURIComponent(s)] on a well-formed string. *)
  encodeURIComponent : string → string;
}.

(** ** A reference instance

    [browser] follows the WHATWG URL standard, Node's [path.posix.join]
    and ECMAScript's [encodeURIComponent] on ASCII input: a base URL of
    the form [scheme://host[:port]/path] or a relative path, without
    user-info, IPv6 literals, percent-escapes in the host or surrounding
    white space. The properties below are stated for every [Platform];
    [browser] only evaluates them on concrete inputs. *)
Module Browser.

Definition is_alpha (c : ascii) : bool :=
  let n := nat_of_ascii c in
  ((65 <=? n) && (n <=? 90)) || ((97 <=? n) && (n <=? 122)).

Definition is_digit (c : ascii) : bool :=
  let n := nat_of_ascii c in (48 <=? n) && (n <=? 57).

Definition lower (c : ascii) : ascii :=
  let n := nat_of_ascii c in
  if (65 <=? n) && (n <=? 90) then ascii_of_nat (n + 32) else c.

Definition is_scheme_char (c : ascii) : bool :=
  is_alpha c || is_digit c
  || Ascii.eqb c "+" || Ascii.eqb c "-" || Ascii.eqb c ".".

(** The scheme, in lower case, and what follows its colon. *)
Fixpoint scheme_tail (s : string) : option (string * string) :=
  match s with
  | EmptyString => None
  | String c r =>
      if Ascii.eqb c ":" then Some (EmptyString, r)
      else if is_scheme_char c then
        match scheme_tail r with
        | Some (sch, rest) => Some (String (lower c) sch, rest)
        | None => None
        end
      else None
  end.

Definition parse_scheme (s : string) : option (string * string) :=
  match s with
  | String c _ => if is_alpha c then scheme_tail s else None
  | EmptyString => None
  end.

Definition is_slash (c : ascii) : bool :=
  Ascii.eqb c "/" || Ascii.eqb c "\".

Fixpoint skip_slashes (s : string) : string :=
  match s with
  | String c r => if is_slash c then skip_slashes r else s
  | EmptyString => s
  end.

(** The prefix of [s] before the first character satisfying [stop],
    and the rest. *)
Fixpoint span_until (stop : ascii → bool) (s : string) : string * string :=
  match s with
  | EmptyString => (EmptyString, EmptyString)
  | String c r =>
      if stop c then (EmptyString, s)
      else let '(a, b) := span_until stop r in (String c a, b)
  end.

Definition ends_authority (c : ascii) : bool :=
  is_slash c || Ascii.eqb c "?" || Ascii.eqb c "#".

Fixpoint map_string (f : ascii → ascii) (s : string) : string :=
  match s with
  | EmptyString => EmptyString
  | String c r => String (f c) (map_string f r)
  end.

Fixpoint all_string (p : ascii → bool) (s : string) : bool :=
  match s with
  | EmptyString => true
  | String c r => p c && all_string p r
  end.

Definition default_port (scheme : string) : option string :=
  if String.eqb scheme "http" then Some "80"
  else if String.eqb scheme "https" then Some "443"
  else if String.eqb scheme "ws" then Some "80"
  else if String.eqb scheme "wss" then Some "443"
  else if String.eqb scheme "ftp" then Some "21"
  else None.

Definition origin (u : string) : option string :=
  match parse_scheme u with
  | None => None
  | Some (scheme, rest) =>
      match default_port scheme with
      | None => Some "null"
      | Some dport =>
          let '(authority, _) := span_until ends_authority (skip_slashes rest) in
          let '(host, port) := span_until (Ascii.eqb ":") authority in
          let port := match port with String _ p => p | EmptyString => port end in
          if String.eqb host "" then None
          else if negb (all_string is_digit port) then None
          else if String.eqb port "" || String.eqb port dport
          then Some (scheme +:+ "://" +:+ map_string lower host)
          else Some (scheme +:+ "://" +:+ map_string lower host +:+ ":" +:+ port)
      end
  end.

(** [path.posix.normalize] on a list of segments. *)
Fixpoint normalize_segments (absolute : bool) (segs acc : list string)
  : list string :=
  match segs with
  | [] => reverse acc
  | seg :: rest =>
      if String.eqb seg "" || String.eqb seg "." then
        normalize_segments absolute rest acc
      else if String.eqb seg ".." then
        match acc with
        | top :: acc' =>
            if String.eqb top ".." then normalize_segments absolute rest (seg :: acc)
            else normalize_segments absolute rest acc'
        | [] =>
            if absolute then normalize_segments absolute rest acc
            else normalize_segments absolute rest [seg]
        end
      else normalize_segments absolute rest (seg :: acc)
  end.

Fixpoint split_slash (s cur : string) : list string :=
  match s with
  | EmptyString => [cur]
  | String c r =>
      if Ascii.eqb c "/" then cur :: split_slash r EmptyString
      else split_slash r (cur +:+ String c EmptyString)
  end.

Fixpoint join_slash (l : list string) : string :=
  match l with
  | [] => EmptyString
  | [x] => x
  | x :: r => x +:+ "/" +:+ join_slash r
  end.

Definition ends_with_slash (s : string) : bool :=
  match last (split_slash s EmptyString) with
  | Some seg => String.eqb seg "" && negb (String.eqb s "")
  | None => false
  end.

Definition posix_join (a b : string) : string :=
  let joined :=
    if String.eqb a "" then b
    else if String.eqb b "" then a
    else a +:+ "/" +:+ b in
  if String.eqb joined "" then "."
  else
    let absolute := String.prefix "/" joined in
    let body := join_slash (normalize_segments absolute (split_slash joined EmptyString) []) in
    let body :=
      if negb (String.eqb body "") && ends_with_slash joined
      then body +:+ "/" else body in
    if absolute then "/" +:+ body
    else if String.eqb body "" then "." else body.

Definition ends_path (c : ascii) : bool :=
  Ascii.eqb c "?" || Ascii.eqb c "#".

(** [URLExt.join]: the scheme and authority of the base are kept, its
    path is joined with the part, its query and fragment are dropped. *)
Definition join (base part : string) : string :=
  let '(pfx, path) :=
    match parse_scheme base with
    | Some (scheme, rest) =>
        if String.prefix "//" rest then
          let '(authority, tail) :=
            span_until ends_authority (skip_slashes rest) in
          (scheme +:+ "://" +:+ authority, tail)
        else (EmptyString, base)
    | None => (EmptyString, base)
    end in
  let '(pathname, _) := span_until ends_path path in
  let pathname :=
    if negb (String.eqb pfx "") && negb (String.prefix "/" pathname)
    then "/" +:+ pathname else pathname in
  let joined := posix_join pathname part in
  pfx +:+ (if String.eqb joined "." then EmptyString else joined).

Definition hex_digit (n : nat) : ascii :=
  if n <? 10 then ascii_of_nat (48 + n) else ascii_of_nat (55 + n).

Definition unreserved (c : ascii) : bool :=
  is_alpha c || is_digit c
  || Ascii.eqb c "-" || Ascii.eqb c "_" || Ascii.eqb c "." || Ascii.eqb c "!"
  || Ascii.eqb c "~" || Ascii.eqb c "*" || Ascii.eqb c "'" || Ascii.eqb c "("
  || Ascii.eqb c ")".

Fixpoint percent_encode (s : string) : string :=
  match s with
  | EmptyString => EmptyString
  | String c r =>
      if unreserved c then String c (percent_encode r)
      else
        let n := nat_of_ascii c in
        String "%" (String (hex_digit (n / 16))
                      (String (hex_digit (n mod 16)) (percent_encode r)))
  end.

End Browser.

Definition browser : Platform := {|
  url_origin := Browser.origin;
  URLExt_join := Browser.join;
  encodeURIComponent := Browser.percent_encode;
|}.

(* ===================================================================== *)
(** * HybridKernelSpecManager  (src/kernelspec.ts) *)
(* ===================================================================== *)

Module KernelSpec.

(** [KernelSpec.ISpecModels]: [{ default, kernelspecs }]. An entry of
    [kernelspecs] is a JSON value: in remote mode it is whatever the
    server sent. *)
Record ISpecModels : Type := {
  spec_default : option string;
  kernelspecs : gmap string JsValue;
}.

(** The part of [ServerConnection.ISettings] the manager reads. *)
Record ISettings : Type := {
  baseUrl : string;
  token : string;
}.

(** [HybridKernelsMode] (src/tokens.ts). *)
Inductive HybridKernelsMode : Type := hybrid | remote.

(** [getHybridKernelsMode] (src/config.ts), on the value of the
    [hybridKernelsMode] page option. *)
Definition getHybridKernelsMode (option_value : string) : HybridKernelsMode :=
  if String.eqb option_value "remote" then remote else hybrid.

Section Rewriting.
Context `{Platform}.

(** Lines 213-226: the absolute URL of one resource path. *)
Definition absoluteUrl (baseUrl resourcePath : string) : result string :=
  if startsWith resourcePath "http://" || startsWith resourcePath "https://"
  then Ok resourcePath
  else if startsWith resourcePath "/" then
    match url_origin baseUrl with
    | Some origin => Ok (origin +:+ resourcePath)
    | None => Throw (TypeError "Invalid URL")
    end
  else Ok (URLExt_join baseUrl resourcePath).

(** Lines 229-235: the token, when there is one, as a query parameter. *)
Definition appendToken (token transformedUrl : string) : string :=
  if negb (String.eqb token "") then
    let separator := if includes transformedUrl "?" then "&" else "?" in
    transformedUrl +:+ separator +:+ "token=" +:+ encodeURIComponent token
  else transformedUrl.

Definition transformUrl (settings : ISettings) (resourcePath : string)
  : result string :=
  try! transformedUrl ← absoluteUrl (baseUrl settings) resourcePath;
  Ok (appendToken (token settings) transformedUrl).

(** Lines 207-236: the loop over [Object.entries(resources)]; a value that
    is not a string is skipped. *)
Fixpoint transformResources (settings : ISettings)
    (entries : list (string * JsValue))
    (transformedResources : gmap string string)
  : result (gmap string string) :=
  match entries with
  | [] => Ok transformedResources
  | (resourceKey, JStr resourcePath) :: rest =>
      try! url ← transformUrl settings resourcePath;
      transformResources settings rest (<[resourceKey := url]> transformedResources)
  | _ :: rest => transformResources settings rest transformedResources
  end.

(** Lines 201-202. *)
Definition unwrapSpec (rawSpec : JsValue) : JsValue :=
  get_prop rawSpec "spec" ?? rawSpec.

Definition rawResources (rawSpec : JsValue) : JsValue :=
  get_prop rawSpec "resources" ?? get_prop (unwrapSpec rawSpec) "resources"
    ?? JObj ∅.

(** Lines 238-246: the normalized entry. *)
Definition normalizedSpec (name : string) (spec : JsValue)
    (transformedResources : gmap string string) : JsValue :=
  JObj (<["name" := get_prop spec "name" ?? JStr name]>
       (<["display_name" := get_prop spec "display_name" ?? JStr name]>
       (<["language" := get_prop spec "language" ?? JStr ""]>
       (<["argv" := get_prop spec "argv" ?? JArr []]>
       (<["env" := get_prop spec "env" ?? JObj ∅]>
       (<["metadata" := get_prop spec "metadata" ?? JObj ∅]>
       (<["resources" := JObj (JStr <$> transformedResources)]> ∅))))))).

(** Lines 198-246: the body of the loop for one truthy entry. *)
Definition transformSpec (settings : ISettings) (name : string)
    (rawSpec : JsValue) : result JsValue :=
  try! transformedResources ←
    transformResources settings (object_entries (rawResources rawSpec)) ∅;
  Ok (normalizedSpec name (unwrapSpec rawSpec) transformedResources).

(** Lines 193-247: the loop over [Object.entries(specs.kernelspecs)];
    a falsy entry is skipped. The entries of a dictionary come in the
    order of [map_to_list]; each key occurs once and the loop stops at the
    first throw, so the order has no bearing on the result. *)
Fixpoint transformKernelspecs (settings : ISettings)
    (entries : list (string * JsValue))
    (transformedKernelspecs : gmap string JsValue)
  : result (gmap string JsValue) :=
  match entries with
  | [] => Ok transformedKernelspecs
  | (name, rawSpec) :: rest =>
      if truthy rawSpec then
        try! spec ← transformSpec settings name rawSpec;
        transformKernelspecs settings rest (<[name := spec]> transformedKernelspecs)
      else transformKernelspecs settings rest transformedKernelspecs
  end.

(** Lines 181-253. [serverSettings] is [this._serverSettings], which the
    constructor's options may leave undefined. *)
Definition _transformRemoteSpecResources (serverSettings : option ISettings)
    (specs : option ISpecModels) : result (option ISpecModels) :=
  match specs, serverSettings with
  | Some s, Some settings =>
      try! transformedKernelspecs ←
        transformKernelspecs settings (map_to_list (kernelspecs s)) ∅;
      Ok (Some {| spec_default := spec_default s;
                  kernelspecs := transformedKernelspecs |})
  | _, _ => Ok specs
  end.

(** ** refreshSpecs *)

(** What [fetch] resolves to: [response.ok] and [await response.json()],
    cast to [ISpecModels]; [None] is the payload [null]. *)
Record Response : Type := {
  ok : bool;
  json : result (option ISpecModels);
}.

(** The collaborators awaited by one call of [refreshSpecs]. *)
Record Collaborators : Type := {
  (** [getHybridKernelsMode()] *)
  mode : HybridKernelsMode;
  (** [await this._kernelSpecManager.refreshSpecs()], then its [specs] *)
  serverRefresh : result (option ISpecModels);
  (** [await fetch(url)] *)
  fetch : string → result Response;
  (** [await this._liteKernelSpecManager.refreshSpecs()], then its [specs] *)
  liteRefresh : result (option ISpecModels);
}.

(** The fields of the manager that [refreshSpecs] reads and writes, and
    the values emitted on [specsChanged]. The server settings are read as
    one snapshot for the duration of a refresh. *)
Record HybridKernelSpecManager : Type := {
  _serverSettings : option ISettings;
  managerSettings : ISettings;
  _specs : option ISpecModels;
  specsChanged : list ISpecModels;
}.

Definition emit (specs : ISpecModels) (m : HybridKernelSpecManager)
  : HybridKernelSpecManager :=
  {| _serverSettings := _serverSettings m;
     managerSettings := managerSettings m;
     _specs := Some specs;
     specsChanged := specsChanged m ++ [specs] |}.

(** Lines 136-140. *)
Definition specsUrlWithToken (settings : ISettings) : string :=
  let specsUrl := URLExt_join (baseUrl settings) "api/kernelspecs" in
  if negb (String.eqb (token settings) "")
  then specsUrl +:+ "?token=" +:+ encodeURIComponent (token settings)
  else specsUrl.

(** Lines 123-151: the server side; every failure leaves [null]. *)
Definition fetchServerSpecs (c : Collaborators) (m : HybridKernelSpecManager)
  : option ISpecModels :=
  match mode c with
  | hybrid =>
      match serverRefresh c with
      | Ok specs => specs
      | Throw _ => None
      end
  | remote =>
      if negb (String.eqb (baseUrl (managerSettings m)) "") then
        match fetch c (specsUrlWithToken (managerSettings m)) with
        | Ok response =>
            if ok response then
              match json response with
              | Ok data => data
              | Throw _ => None
              end
            else None
        | Throw _ => None
        end
      else None
  end.

(** Lines 165-171. The spread [{...a, ...b}] is [b ∪ a]: [b] wins. *)
Definition mergeSpecs (serverSpecs transformedServerSpecs newLiteSpecs
    : option ISpecModels) : ISpecModels :=
  {| spec_default :=
       match serverSpecs ≫= spec_default with
       | Some d => Some d
       | None =>
           match newLiteSpecs ≫= spec_default with
           | Some d => Some d
           | None => Some EmptyString
           end
       end;
     kernelspecs :=
       from_option kernelspecs ∅ newLiteSpecs
       ∪ from_option kernelspecs ∅ transformedServerSpecs |}.

(** Lines 118-175. The result is the manager after the call and the
    outcome of the returned promise. *)
Definition refreshSpecs (c : Collaborators) (m : HybridKernelSpecManager)
  : HybridKernelSpecManager * result unit :=
  let serverSpecs := fetchServerSpecs c m in
  match liteRefresh c with
  | Throw e => (m, Throw e)
  | Ok newLiteSpecs =>
      match serverSpecs, newLiteSpecs with
      | None, None => (m, Ok ())
      | _, _ =>
          let transformed :=
            match mode c with
            | remote => _transformRemoteSpecResources (_serverSettings m) serverSpecs
            | hybrid => Ok serverSpecs
            end in
          match transformed with
          | Throw e => (m, Throw e)
          | Ok transformedServerSpecs =>
              (emit (mergeSpecs serverSpecs transformedServerSpecs newLiteSpecs) m,
               Ok ())
          end
      end
  end.

End Rewriting.

End KernelSpec.

(* ===================================================================== *)
(** * The two backends and the calls delegated to them *)
(* ===================================================================== *)

Module Backends.

(** The in-browser (lite) backend and the Jupyter server. *)
Inductive Backend : Type := Lite | Server.

#[export] Instance Backend_eq_dec : EqDecision Backend.
Proof. solve_decision. Defined.

(** [Kernel.IModel] and [Session.IModel], as far as routing reads them. *)
Record IModel : Type := {
  id : string;
  name : string;
}.

(** An operation of a backend manager or API client, indexed by the type
    of the value its promise resolves to. *)
Inductive Request : Type → Type :=
  | StartNew (name : option string) : Request IModel
  | ConnectTo (model : IModel) : Request IModel
  | Shutdown (id : string) : Request unit
  | Restart (id : string) : Request unit
  | Interrupt (id : string) : Request unit
  | ListRunning : Request (list IModel)
  | FindById (id : string) : Request (option IModel).

Inductive Call : Type :=
  | call (target : Backend) {A : Type} (request : Request A).

Definition target_of (c : Call) : Backend :=
  match c with
  | call b _ => b
  end.

(** How the backends answer. *)
Definition World : Type := Backend → ∀ A, Request A → result A.

(** A computation: the calls it delegates, in order, and its outcome. *)
Definition M (A : Type) : Type := World → list Call * result A.

Definition ret {A} (a : A) : M A := λ _, ([], Ok a).

Definition bind {A B} (m : M A) (f : A → M B) : M B :=
  λ w,
    match m w with
    | (log, Ok a) => let '(log', r) := f a w in (log ++ log', r)
    | (log, Throw e) => (log, Throw e)
    end.

(** [await backend.request(..)], also the [return backend.request(..)]
    of an [async] function. *)
Definition await (b : Backend) {A} (r : Request A) : M A :=
  λ w, ([call b r], w b A r).

(** [try { m } catch { h }] *)
Definition try_catch {A} (m : M A) (h : M A) : M A :=
  λ w,
    match m w with
    | (log, Ok a) => (log, Ok a)
    | (log, Throw _) => let '(log', r) := h w in (log ++ log', r)
    end.

Definition calls {A} (m : M A) (w : World) : list Call := (m w).1.
Definition outcome {A} (m : M A) (w : World) : result A := (m w).2.

(** The calls of a log sent to one backend. *)
Definition sent_to (b : Backend) (log : list Call) : list Call :=
  filter (λ c, target_of c = b) log.

(** [this._liteKernelSpecs.specs?.kernelspecs[name]], as a condition. *)
Definition hasSpec (specs : option KernelSpec.ISpecModels) (name : string)
  : bool :=
  match specs with
  | Some s => truthy (default JUndefined (KernelSpec.kernelspecs s !! name))
  | None => false
  end.

(** [name && this._liteKernelSpecs.specs?.kernelspecs[name]], the test
    shared by the three [startNew]. *)
Definition startsLite (specs : option KernelSpec.ISpecModels)
    (name : option string) : bool :=
  match name with
  | Some n => negb (String.eqb n "") && hasSpec specs n
  | None => false
  end.

End Backends.
Export Backends.

Notation "'do!' x ← m ; k" := (bind m (λ x, k))
  (at level 10, x name, m at level 100, k at level 200).

(* ===================================================================== *)
(** * HybridKernelManager  (src/kernel.ts) *)
(* ===================================================================== *)

Module Kernel.

(** What the manager reads synchronously: the running lists cached by
    its two [KernelManager]s and the in-browser kernel specs. *)
Record HybridKernelManager : Type := {
  liteRunning : list IModel;
  serverRunning : list IModel;
  liteKernelSpecs : option KernelSpec.ISpecModels;
}.

(** [_isLiteKernel(model)], with [model : { id?: string; name?: string }]. *)
Definition _isLiteKernel (m : HybridKernelManager)
    (id name : option string) : bool :=
  let hasSpec := hasSpec (liteKernelSpecs m) (default EmptyString name) in
  let running :=
    find (λ kernel, bool_decide (Some (Backends.id kernel) = id)) (liteRunning m) in
  bool_decide (is_Some running) || hasSpec.

Definition connectTo (m : HybridKernelManager) (model : IModel) : M IModel :=
  if _isLiteKernel m (Some (id model)) (Some (name model))
  then await Lite (ConnectTo model)
  else await Server (ConnectTo model).

(** [running()]: the server's kernels, then the lite ones. *)
Definition running (m : HybridKernelManager) : list IModel :=
  serverRunning m ++ liteRunning m.

Definition startNew (m : HybridKernelManager) (name : option string)
  : M IModel :=
  if startsLite (liteKernelSpecs m) name
  then await Lite (StartNew name)
  else await Server (StartNew name).

Definition shutdown (m : HybridKernelManager) (id : string) : M unit :=
  if _isLiteKernel m (Some id) None
  then await Lite (Shutdown id)
  else await Server (Shutdown id).

Definition findById (id : string) : M (option IModel) :=
  do! kernel ← await Server (FindById id);
  match kernel with
  | Some k => ret (Some k)
  | None => await Lite (FindById id)
  end.

End Kernel.

(* ===================================================================== *)
(** * HybridSessionManager  (src/session.ts) *)
(* ===================================================================== *)

Module Session.

Record HybridSessionManager : Type := {
  liteRunning : list IModel;
  serverRunning : list IModel;
  liteKernelSpecs : option KernelSpec.ISpecModels;
}.

Definition _isLiteSession (m : HybridSessionManager) (id : string) : bool :=
  let running :=
    find (λ session, bool_decide (Backends.id session = id)) (liteRunning m) in
  bool_decide (is_Some running).

Definition connectTo (m : HybridSessionManager) (model : IModel) : M IModel :=
  if _isLiteSession m (id model)
  then await Lite (ConnectTo model)
  else await Server (ConnectTo model).

Definition running (m : HybridSessionManager) : list IModel :=
  serverRunning m ++ liteRunning m.

(** [kernelName] is [createOptions.kernel?.name]. *)
Definition startNew (m : HybridSessionManager) (kernelName : option string)
  : M IModel :=
  if startsLite (liteKernelSpecs m) kernelName
  then await Lite (StartNew kernelName)
  else await Server (StartNew kernelName).

Definition shutdown (m : HybridSessionManager) (id : string) : M unit :=
  if _isLiteSession m id
  then await Lite (Shutdown id)
  else await Server (Shutdown id).

Definition findById (id : string) : M (option IModel) :=
  do! session ← await Server (FindById id);
  match session with
  | Some s => ret (Some s)
  | None => await Lite (FindById id)
  end.

End Session.

(* ===================================================================== *)
(** * HybridKernelClient  (src/kernelclient.ts) *)
(* ===================================================================== *)

Module KernelClient.

(** [IObservableMap.IChangedArgs<IKernel>] *)
Inductive ChangeType : Type := add | remove | change.

Record IChangedArgs : Type := {
  type : ChangeType;
  key : string;
  oldValue : option IModel;
  newValue : option IModel;
}.

Record HybridKernelClient : Type := {
  _liteKernelIds : gset string;
  liteKernelSpecs : option KernelSpec.ISpecModels;
  changed : list IChangedArgs;
}.

(** The client as the constructor leaves it. *)
Definition new (kernelSpecs : option KernelSpec.ISpecModels)
  : HybridKernelClient :=
  {| _liteKernelIds := ∅; liteKernelSpecs := kernelSpecs; changed := [] |}.

(** The handler connected to [liteKernelClient.changed] (lines 27-34). *)
Definition onLiteChanged (args : IChangedArgs) (c : HybridKernelClient)
  : HybridKernelClient :=
  let ids :=
    match type args, newValue args, oldValue args with
    | add, Some v, _ => {[ id v ]} ∪ _liteKernelIds c
    | remove, _, Some v => _liteKernelIds c ∖ {[ id v ]}
    | _, _, _ => _liteKernelIds c
    end in
  {| _liteKernelIds := ids;
     liteKernelSpecs := liteKernelSpecs c;
     changed := changed c ++ [args] |}.

Definition _isLiteKernel (c : HybridKernelClient) (id : string) : bool :=
  bool_decide (id ∈ _liteKernelIds c).

(** The remote side is given [{ name: name ?? '' }]. *)
Definition startNew (c : HybridKernelClient) (name : option string)
  : M IModel :=
  if startsLite (liteKernelSpecs c) name
  then await Lite (StartNew name)
  else await Server (StartNew (Some (default EmptyString name))).

Definition restart (c : HybridKernelClient) (kernelId : string) : M unit :=
  if _isLiteKernel c kernelId
  then await Lite (Restart kernelId)
  else await Server (Restart kernelId).

Definition interrupt (c : HybridKernelClient) (kernelId : string) : M unit :=
  if _isLiteKernel c kernelId
  then await Lite (Interrupt kernelId)
  else await Server (Interrupt kernelId).

Definition listRunning : M (list IModel) :=
  do! liteKernels ← await Lite ListRunning;
  try_catch
    (do! remoteKernels ← await Server ListRunning;
     ret (liteKernels ++ remoteKernels))
    (ret liteKernels).

Definition shutdown (c : HybridKernelClient) (id : string) : M unit :=
  if _isLiteKernel c id
  then await Lite (Shutdown id)
  else await Server (Shutdown id).

End KernelClient.

(* ===================================================================== *)
(** * RemoteServerConfig  (src/config.ts) *)
(* ===================================================================== *)

Module Config.

Definition PAGE_CONFIG_BASE_URL_KEY : string := "hybridKernelsBaseUrl".
Definition PAGE_CONFIG_TOKEN_KEY : string := "hybridKernelsToken".

(** [PageConfig] of [@jupyterlab/coreutils], the backing store. *)
Class PageConfig (Store : Type) : Type := {
  getOption : string → Store → string;
  setOption : string → string → Store → Store;
}.

Section RemoteServerConfig.
Context {Store : Type} `{PageConfig Store}.

(** The store, the calls of [setOption] made so far, the private field
    [_isConnected] and the number of emissions of [changed]. *)
Record RemoteServerConfig : Type := {
  store : Store;
  writes : list (string * string);
  _isConnected : bool;
  changed : nat;
}.

Definition baseUrl (c : RemoteServerConfig) : string :=
  getOption PAGE_CONFIG_BASE_URL_KEY (store c).

Definition token (c : RemoteServerConfig) : string :=
  getOption PAGE_CONFIG_TOKEN_KEY (store c).

Definition write (k v : string) (c : RemoteServerConfig) : RemoteServerConfig :=
  {| store := setOption k v (store c);
     writes := writes c ++ [(k, v)];
     _isConnected := _isConnected c;
     changed := changed c |}.

Definition emit (c : RemoteServerConfig) : RemoteServerConfig :=
  {| store := store c;
     writes := writes c;
     _isConnected := _isConnected c;
     changed := S (changed c) |}.

Definition setConnected (connected : bool) (c : RemoteServerConfig)
  : RemoteServerConfig :=
  if negb (eqb (_isConnected c) connected) then
    emit {| store := store c; writes := writes c;
            _isConnected := connected; changed := changed c |}
  else c.

(** The argument of [update]: [{ baseUrl?: string; token?: string }]. *)
Record Partial : Type := {
  new_baseUrl : option string;
  new_token : option string;
}.

(** [config.field !== undefined && config.field !== current] *)
Definition differs (field : option string) (current : string) : bool :=
  match field with
  | Some v => negb (String.eqb v current)
  | None => false
  end.

(** Lines 74-92. *)
Definition update (config : Partial) (c : RemoteServerConfig)
  : RemoteServerConfig :=
  let currentBaseUrl := baseUrl c in
  let currentToken := token c in
  let '(c, hasChanged) :=
    match new_baseUrl config with
    | Some v =>
        if negb (String.eqb v currentBaseUrl)
        then (write PAGE_CONFIG_BASE_URL_KEY v c, true)
        else (c, false)
    | None => (c, false)
    end in
  let '(c, hasChanged) :=
    match new_token config with
    | Some v =>
        if negb (String.eqb v currentToken)
        then (write PAGE_CONFIG_TOKEN_KEY v c, true)
        else (c, hasChanged)
    | None => (c, hasChanged)
    end in
  if hasChanged then emit c else c.

End RemoteServerConfig.

Arguments RemoteServerConfig Store : clear implicits.

(** A store holding the options in a dictionary; an option that was never
    set reads as the empty string. *)
#[global] Instance dictionary : PageConfig (gmap string string) := {|
  getOption k s := default EmptyString (s !! k);
  setOption k v s := <[k := v]> s;
|}.

End Config.

(* ===================================================================== *)
(** * Operations on a whole backend, and promises awaited together *)
(* ===================================================================== *)

Module Tasks.

(** The operations of [Request], and those that address a backend as a
    whole or look a model up by something else than its id. *)
Inductive Task : Type → Type :=
  | Single {A : Type} (request : Request A) : Task A
  | ShutdownAll : Task unit
  | RefreshRunning : Task unit
  | FindByPath (path : string) : Task (option IModel)
  | GetModel (id : string) : Task (option IModel).

Inductive Sent : Type :=
  | sent (target : Backend) {A : Type} (task : Task A).

Definition sent_target (s : Sent) : Backend :=
  match s with
  | sent b _ => b
  end.

(** How the backends answer a task. *)
Definition Answers : Type := Backend → ∀ A, Task A → result A.

(** The answers to the per-kernel requests. *)
Definition single (w : Answers) : World := λ b A r, w b A (Single r).

(** Which of several rejections is the first in time: the reason
    [Promise.all] rejects with. *)
Definition Timing : Type := list JsError → JsError.

Definition P (A : Type) : Type := Answers → list Sent * result A.

Definition ret {A} (a : A) : P A := λ _, ([], Ok a).

Definition bind {A B} (m : P A) (f : A → P B) : P B :=
  λ w,
    match m w with
    | (log, Ok a) => let '(log', r) := f a w in (log ++ log', r)
    | (log, Throw e) => (log, Throw e)
    end.

Definition await (b : Backend) {A} (t : Task A) : P A :=
  λ w, ([sent b t], w b A t).

(** A computation over the per-kernel requests, run among tasks. *)
Definition lift {A} (m : M A) : P A :=
  λ w,
    let '(log, r) := m (single w) in
    ((λ c, match c with call b r => sent b (Single r) end) <$> log, r).

(** [try { m } catch { h }] *)
Definition try_catch {A} (m : P A) (h : P A) : P A :=
  λ w,
    match m w with
    | (log, Ok a) => (log, Ok a)
    | (log, Throw _) => let '(log', r) := h w in (log ++ log', r)
    end.

Definition errors {A} (rs : list (result A)) : list JsError :=
  omap (λ r, match r with Ok _ => None | Throw e => Some e end) rs.

(** [await Promise.all(ms)], its value dropped: every promise of the array
    exists before the wait starts, so every call is made; the wait
    resolves when all of them do and rejects as soon as one does. *)
Definition all {A} (timing : Timing) (ms : list (P A)) : P unit :=
  λ w,
    let runs := (λ m : P A, m w) <$> ms in
    (concat (fst <$> runs),
     match errors (snd <$> runs) with
     | [] => Ok ()
     | es => Throw (timing es)
     end).

Definition tasks {A} (m : P A) (w : Answers) : list Sent := (m w).1.
Definition settled {A} (m : P A) (w : Answers) : result A := (m w).2.

End Tasks.

Notation "'run!' x ← m ; k" := (Tasks.bind m (λ x, k))
  (at level 10, x name, m at level 100, k at level 200).

(** ** HybridKernelManager and HybridSessionManager, continued *)

Module Managers.
Import Tasks.

(** [refreshRunning] of both managers (kernel.ts, session.ts). *)
Definition refreshRunning (timing : Timing) : P unit :=
  all timing [await Server RefreshRunning; await Lite RefreshRunning].

(** [shutdownAll] of both managers. *)
Definition shutdownAll (timing : Timing) : P unit :=
  all timing [await Server ShutdownAll; await Lite ShutdownAll].

(** [runningCount] of the kernel manager. *)
Definition runningCount (m : Kernel.HybridKernelManager) : nat :=
  length (Kernel.running m).

(** [HybridSessionManager.findByPath] *)
Definition findByPath (path : string) : P (option IModel) :=
  run! session ← await Server (FindByPath path);
  match session with
  | Some s => ret (Some s)
  | None => await Lite (FindByPath path)
  end.

(** [HybridSessionManager.stopIfNeeded] *)
Definition stopIfNeeded (sm : Session.HybridSessionManager) (path : string)
  : P unit :=
  run! session ← findByPath path;
  match session with
  | Some s => lift (Session.shutdown sm (id s))
  | None => ret ()
  end.

End Managers.

(** ** HybridKernelClient, continued *)

Module ClientTasks.
Import Tasks.

(** [shutdownAll] (kernelclient.ts, lines 113-125). *)
Definition shutdownAll (timing : Timing) : P unit :=
  run! _ ← await Lite ShutdownAll;
  try_catch
    (run! remoteKernels ← await Server (Single ListRunning);
     all timing ((λ k, await Server (Single (Shutdown (id k)))) <$> remoteKernels))
    (ret ()).

(** [getModel] (lines 130-136). *)
Definition getModel (id : string) : P (option IModel) :=
  run! liteKernel ← await Lite (GetModel id);
  match liteKernel with
  | Some k => ret (Some k)
  | None => ret None
  end.

(** The handler of the constructor, run on the events of the lite client
    in the order they arrive. *)
Definition replay (events : list KernelClient.IChangedArgs)
    (c : KernelClient.HybridKernelClient) : KernelClient.HybridKernelClient :=
  foldl (λ c args, KernelClient.onLiteChanged args c) c events.

End ClientTasks.

(* ===================================================================== *)
(** * createServerSettings and the configuration command *)
(* ===================================================================== *)

Module ServerSettings.
Import Config.

(** [s.endsWith(p)] *)
Fixpoint endsWith (s p : string) : bool :=
  String.eqb s p ||
  match s with
  | EmptyString => false
  | String _ r => endsWith r p
  end.

(** [s.replace(/^http/, 'ws')] *)
Definition replaceHttp (s : string) : string :=
  match s with
  | String "h" (String "t" (String "t" (String "p" r))) => "ws" +:+ r
  | _ => s
  end.

(** [s.endsWith('/') ? s : `${s}/`] *)
Definition withSlash (s : string) : string :=
  if endsWith s "/" then s else s +:+ "/".

(** What [ServerConnection.makeSettings()] gives for the two URLs. *)
Record Defaults : Type := {
  default_baseUrl : string;
  default_wsUrl : string;
}.

Section Getters.
Context {Store : Type} `{PageConfig Store}.

(** The getters of the object built by [createServerSettings]
    (src/config.ts, lines 110-133), on the current store. *)
Definition settings_baseUrl (d : Defaults) (s : Store) : string :=
  let baseUrl := getOption PAGE_CONFIG_BASE_URL_KEY s in
  if String.eqb baseUrl "" then default_baseUrl d else withSlash baseUrl.

Definition settings_wsUrl (d : Defaults) (s : Store) : string :=
  let baseUrl := getOption PAGE_CONFIG_BASE_URL_KEY s in
  if String.eqb baseUrl "" then default_wsUrl d
  else withSlash (replaceHttp baseUrl).

Definition settings_token (s : Store) : string :=
  getOption PAGE_CONFIG_TOKEN_KEY s.

(** The settings a refresh reads, as one snapshot. *)
Definition snapshot (d : Defaults) (s : Store) : KernelSpec.ISettings :=
  {| KernelSpec.baseUrl := settings_baseUrl d s;
     KernelSpec.token := settings_token s |}.

(** The command [hybrid-kernels:configure-remote-server] once its dialog
    is closed (src/index.ts, lines 183-220): [value] is the form's value
    when the dialog was accepted. The refresh of the specs that follows
    is [KernelSpec.refreshSpecs]. *)
Definition configureRemoteServer `{Platform}
    (value : option (string * string))
    (fetch : string → result KernelSpec.Response)
    (c : RemoteServerConfig Store) : RemoteServerConfig Store :=
  match value with
  | None => c
  | Some (baseUrl, token) =>
      let c := update {| new_baseUrl := Some baseUrl;
                         new_token := Some token |} c in
      if negb (String.eqb baseUrl "") then
        let urlWithToken :=
          KernelSpec.specsUrlWithToken
            {| KernelSpec.baseUrl := baseUrl; KernelSpec.token := token |} in
        match fetch urlWithToken with
        | Ok response => setConnected (KernelSpec.ok response) c
        | Throw _ => setConnected false c
        end
      else setConnected false c
  end.

End Getters.

End ServerSettings.

(* ===================================================================== *)
(** * KernelPromoter  (src/kernelpromoter.ts) *)
(* ===================================================================== *)

Module Promoter.
Import Tasks.

(** A [Session.ISessionConnection]: its model, the name of its kernel
    when it has one, and the backend whose session API it talks to. *)
Record ISessionConnection : Type := {
  session_id : string;
  path : string;
  kernel_name : option string;
  owner : Backend;
}.

(** [isLiteKernel(session)] *)
Definition isLiteKernel (specs : option KernelSpec.ISpecModels)
    (session : option ISessionConnection) : bool :=
  match session with
  | None => false
  | Some s =>
      match kernel_name s with
      | None => false
      | Some kernelName =>
          if String.eqb kernelName "" then false else hasSpec specs kernelName
      end
  end.

(** The result of a promotion: the session it was given, or the model of
    the session it started. *)
Inductive Promoted : Type :=
  | Unchanged (session : ISessionConnection)
  | Started (model : IModel).

(** [promoteKernel(session)], with [this._serviceManager.sessions] the
    hybrid session manager [sm]. *)
Definition promoteKernel (specs : option KernelSpec.ISpecModels)
    (sm : Session.HybridSessionManager) (session : ISessionConnection)
  : P Promoted :=
  if negb (isLiteKernel specs (Some session)) then ret (Unchanged session)
  else
    let kernelName := default EmptyString (kernel_name session) in
    try_catch
      (run! _ ← await (owner session) (Single (Shutdown (session_id session)));
       run! newSession ← lift (Session.startNew sm (Some kernelName));
       ret (Started newSession))
      (ret (Unchanged session)).

End Promoter.

(* ===================================================================== *)
(** * parseJupyterUrl  (src/dialogs.ts) *)
(* ===================================================================== *)

Module Dialogs.

(** What [new URL(fullUrl)] exposes to the function; [token_param] is
    [url.searchParams.get('token')]. *)
Record URL : Type := {
  protocol : string;
  host : string;
  pathname : string;
  token_param : option string;
}.

Record IRemoteServerFormValue : Type := {
  baseUrl : string;
  token : string;
}.

(** The alternatives of [jupyterPathPattern]. *)
Definition jupyterPaths : list string :=
  ["lab"; "tree"; "notebooks"; "edit"; "terminals"; "consoles"; "doc"].

Fixpoint drop_string (n : nat) (s : string) : string :=
  match n, s with
  | S n', String _ r => drop_string n' r
  | _, _ => s
  end.

Fixpoint take_string (n : nat) (s : string) : string :=
  match n, s with
  | S n', String c r => String c (take_string n' r)
  | _, _ => EmptyString
  end.

(** [/\/(lab|tree|...)(\/|$)/] matches at the start of [s]. *)
Definition matches_here (s : string) : bool :=
  existsb
    (λ seg,
       String.prefix ("/" +:+ seg) s
       && (let rest := drop_string (S (String.length seg)) s in
           String.eqb rest "" || String.prefix "/" rest))
    jupyterPaths.

(** [pathname.match(jupyterPathPattern)?.index]: the leftmost match. *)
Fixpoint match_index (s : string) : option nat :=
  if matches_here s then Some 0
  else
    match s with
    | EmptyString => None
    | String _ r => S <$> match_index r
    end.

(** [s.replace(/\/$/, '')] *)
Fixpoint stripSlash (s : string) : string :=
  match s with
  | EmptyString => EmptyString
  | String c EmptyString => if Ascii.eqb c "/" then EmptyString else s
  | String c r => String c (stripSlash r)
  end.

Definition basePath (pathname : string) : string :=
  stripSlash
    match match_index pathname with
    | Some index => take_string index pathname
    | None => pathname
    end.

(** [parseJupyterUrl]; [None] for [parsed] is [new URL] throwing, and for
    the result it is [null]. *)
Definition parseJupyterUrl (parsed : option URL)
  : option IRemoteServerFormValue :=
  match parsed with
  | None => None
  | Some url =>
      Some {| baseUrl := protocol url +:+ "//" +:+ host url
                         +:+ basePath (pathname url);
              token := default EmptyString (token_param url) |}
  end.

End Dialogs.

(* ===================================================================== *)
(** * The life of a HybridKernelSpecManager *)
(* ===================================================================== *)

Module SpecManagerRuns.
Import KernelSpec.

(** The manager as its field initializers leave it (src/kernelspec.ts,
    lines 255-263): no specs, nothing emitted. *)
Definition new (serverSettings : option ISettings) (settings : ISettings)
  : HybridKernelSpecManager :=
  {| _serverSettings := serverSettings;
     managerSettings := settings;
     _specs := None;
     specsChanged := [] |}.

(** Successive calls of [refreshSpecs], from the constructor, the poll,
    the lite specs' [changed] signal or the configuration command, each
    with what its collaborators answered; a rejected call is dropped by
    its caller. *)
Definition refreshes `{Platform} (cs : list Collaborators)
    (m : HybridKernelSpecManager) : HybridKernelSpecManager :=
  foldl (λ m c, (refreshSpecs c m).1) m cs.

End SpecManagerRuns.

(* ===================================================================== *)
(** * Specification-side definitions and sample data *)
(* ===================================================================== *)

Import KernelSpec.

Section TokenQuery.
Context `{Platform}.

(** The query parameter in the words of the specification: none without
    a token, otherwise [token=<encoded>] introduced by [&] when the URL
    already has a query string and by [?] when it has none. *)
Definition token_query (token url : string) : string :=
  if decide (token = "") then ""
  else if includes url "?" then "&token=" +:+ encodeURIComponent token
  else "?token=" +:+ encodeURIComponent token.

End TokenQuery.

(** Settings, payloads and worlds on which the properties are evaluated. *)
Module Sample.

Definition host_settings : ISettings :=
  {| baseUrl := "https://host/prefix/"; token := "" |}.

Definition host_settings_token : ISettings :=
  {| baseUrl := "https://host/prefix/"; token := "abc" |}.

(** A base URL that [new URL] refuses: it has no scheme. *)
Definition schemeless_settings : ISettings :=
  {| baseUrl := "foo/"; token := "" |}.

Definition kernel_js : gmap string JsValue :=
  {[ "kernel.js" := JStr "/static/k.js" ]}.

(** An entry in the envelope form of the Jupyter Server API. *)
Definition python3_envelope : JsValue :=
  JObj (<["name" := JStr "python3"]>
       (<["spec" := JObj {[ "display_name" := JStr "Remote Python" ]}]>
       (<["resources" := JObj {[ "logo-64x64" :=
                                   JStr "/kernelspecs/python3/logo-64x64.png" ]}]>
        ∅))).

Definition remote_registry : ISpecModels :=
  {| spec_default := Some "python3";
     kernelspecs := {[ "python3" := python3_envelope ]} |}.

(** The in-browser side: a pyodide kernel registered as [python3]. *)
Definition python3_lite : JsValue :=
  JObj (<["name" := JStr "python3"]>
       (<["display_name" := JStr "Local Python"]> ∅)).

Definition lite_registry : ISpecModels :=
  {| spec_default := Some "python3";
     kernelspecs := {[ "python3" := python3_lite ]} |}.

(** A server-side registry with a kernel the browser does not have. *)
Definition r_registry : ISpecModels :=
  {| spec_default := Some "ir";
     kernelspecs := {[ "ir" := JObj {[ "display_name" := JStr "R" ]} ]} |}.

(** A payload with an entry that is [null]. *)
Definition ghost_registry : ISpecModels :=
  {| spec_default := None;
     kernelspecs := {[ "ghost" := JNull ]} |}.

(** A server whose reply to [GET api/kernelspecs] is [payload]. *)
Definition serving (m : HybridKernelsMode) (payload lite : option ISpecModels)
  : Collaborators :=
  {| mode := m;
     serverRefresh := Ok payload;
     fetch := λ _, Ok {| ok := true; json := Ok payload |};
     liteRefresh := Ok lite |}.

(** A server that cannot be reached, and no in-browser kernel. *)
Definition unreachable (m : HybridKernelsMode) : Collaborators :=
  {| mode := m;
     serverRefresh := Throw (Rejected "Failed to fetch");
     fetch := λ _, Throw (TypeError "Failed to fetch");
     liteRefresh := Ok None |}.

Definition manager (settings : ISettings) (specs : option ISpecModels)
  : HybridKernelSpecManager :=
  {| _serverSettings := Some settings;
     managerSettings := settings;
     _specs := specs;
     specsChanged := [] |}.

End Sample.

(** The server side of a refresh yields nothing: in hybrid mode the
    refresh of the server's spec manager fails or leaves it without specs;
    in remote mode no base URL is configured, or the request fails, or its
    status is not a success, or its body is not JSON or is [null]. *)
Definition server_yields_nothing `{Platform}
    (c : Collaborators) (m : HybridKernelSpecManager) : Prop :=
  match mode c with
  | hybrid =>
      (∃ e, serverRefresh c = Throw e) ∨ serverRefresh c = Ok None
  | remote =>
      baseUrl (managerSettings m) = ""
      ∨ (∃ e, fetch c (specsUrlWithToken (managerSettings m)) = Throw e)
      ∨ (∃ r, fetch c (specsUrlWithToken (managerSettings m)) = Ok r
              ∧ (ok r = false ∨ (∃ e, json r = Throw e) ∨ json r = Ok None))
  end.

(** The keys of the server side that reach the merged registry: in
    remote mode, when the manager has server settings, the rewriter drops
    the entries that are falsy. *)
Definition kept_server_specs (md : HybridKernelsMode)
    (serverSettings : option ISettings) (server : gmap string JsValue)
  : gmap string JsValue :=
  match md, serverSettings with
  | remote, Some _ => filter (λ kv, truthy kv.2 = true) server
  | _, _ => server
  end.

(** [n] names an in-browser kernel spec: [specs?.kernelspecs[n]] is an
    entry, and a truthy one. *)
Definition lite_spec (specs : option ISpecModels) (n : string) : Prop :=
  ∃ s v, specs = Some s ∧ kernelspecs s !! n = Some v ∧ truthy v = true.

(** The ids of a running list. *)
Definition ids (models : list IModel) : list string := id <$> models.

Module Worlds.

(** Both backends answer from the kernels they run. *)
Definition answering (liteModels serverModels : list IModel) : World :=
  λ b A r,
    let models :=
      match b with
      | Lite => liteModels
      | Server => serverModels
      end in
    match r in Request T return result T with
    | StartNew n => Ok {| id := "fresh"; name := default EmptyString n |}
    | ConnectTo model => Ok model
    | Shutdown _ | Restart _ | Interrupt _ => Ok ()
    | ListRunning => Ok models
    | FindById i => Ok (find (λ k, bool_decide (id k = i)) models)
    end.

(** The lite backend answers; the server cannot be reached. *)
Definition offline (liteModels : list IModel) : World :=
  λ b A r,
    match b with
    | Lite => answering liteModels [] Lite A r
    | Server => Throw (Rejected "Failed to fetch")
    end.

Definition k1 : IModel := {| id := "k1"; name := "python3" |}.
Definition k2 : IModel := {| id := "k2"; name := "ir" |}.

(** A kernel of the server whose spec name the browser also serves. *)
Definition remote_python : IModel := {| id := "r1"; name := "python3" |}.

Definition lite_side : IModel := {| id := "k"; name := "lite-side" |}.
Definition server_side : IModel := {| id := "k"; name := "server-side" |}.

Definition kernelManager (lite server : list IModel)
    (specs : option ISpecModels) : Kernel.HybridKernelManager :=
  {| Kernel.liteRunning := lite;
     Kernel.serverRunning := server;
     Kernel.liteKernelSpecs := specs |}.

Definition sessionManager (lite server : list IModel)
    (specs : option ISpecModels) : Session.HybridSessionManager :=
  {| Session.liteRunning := lite;
     Session.serverRunning := server;
     Session.liteKernelSpecs := specs |}.

End Worlds.

Module Stores.

(** A store with a base URL and a token already configured. *)
Definition configured : Config.RemoteServerConfig (gmap string string) :=
  {| Config.store :=
       <[Config.PAGE_CONFIG_BASE_URL_KEY := "https://host/prefix"]>
         (<[Config.PAGE_CONFIG_TOKEN_KEY := "abc"]> ∅);
     Config.writes := [];
     Config._isConnected := false;
     Config.changed := 0 |}.

End Stores.

(** The calls of [setOption] that [update] owes to its argument: one for
    each field that is given and differs from the stored value, the base
    URL first. *)
Definition expected_writes (config : Config.Partial)
    (currentBaseUrl currentToken : string) : list (string * string) :=
  match Config.new_baseUrl config with
  | Some v =>
      if decide (v = currentBaseUrl) then []
      else [(Config.PAGE_CONFIG_BASE_URL_KEY, v)]
  | None => []
  end
  ++
  match Config.new_token config with
  | Some v =>
      if decide (v = currentToken) then []
      else [(Config.PAGE_CONFIG_TOKEN_KEY, v)]
  | None => []
  end.

(* ===================================================================== *)
(** * Vocabulary of the further properties *)
(* ===================================================================== *)

(** The event records the kernel [i] as added to, or as removed from,
    the lite client's kernels. *)
Definition adds (i : string) (args : KernelClient.IChangedArgs) : Prop :=
  KernelClient.type args = KernelClient.add
  ∧ ∃ k, KernelClient.newValue args = Some k ∧ id k = i.

Definition removes (i : string) (args : KernelClient.IChangedArgs) : Prop :=
  KernelClient.type args = KernelClient.remove
  ∧ ∃ k, KernelClient.oldValue args = Some k ∧ id k = i.

(** No id is reported by both running lists. *)
Definition disjoint_ids (lite server : list IModel) : Prop :=
  ∀ i, i ∈ ids lite → i ∉ ids server.

Module MoreWorlds.
Import Tasks.

(** Both backends answer every task from the models they hold; a session
    model is found by the path kept in its [name]. *)
Definition answering (liteModels serverModels : list IModel) : Answers :=
  λ b A t,
    let models :=
      match b with
      | Lite => liteModels
      | Server => serverModels
      end in
    match t in Task T return result T with
    | Single r => Worlds.answering liteModels serverModels b _ r
    | ShutdownAll | RefreshRunning => Ok ()
    | FindByPath p => Ok (find (λ k, bool_decide (name k = p)) models)
    | GetModel i => Ok (find (λ k, bool_decide (id k = i)) models)
    end.

(** The lite backend answers; every task sent to the server rejects. *)
Definition offline (liteModels : list IModel) : Answers :=
  λ b A t,
    match b with
    | Lite => answering liteModels [] Lite A t
    | Server => Throw (Rejected "Failed to fetch")
    end.

(** The rejection listed first is the first in time. *)
Definition in_order : Timing := λ es, default (Rejected "") (head es).

End MoreWorlds.

(** How many times a sequence of connection states changes value,
    starting from [previous]. *)
Fixpoint flips (previous : bool) (states : list bool) : nat :=
  match states with
  | [] => 0
  | b :: rest => (if eqb previous b then 0 else 1) + flips b rest
  end.

(** A store gives back what was last written under a key and keeps the
    other keys. *)
Definition store_laws {Store : Type} `{Config.PageConfig Store} : Prop :=
  (∀ k v (s : Store), Config.getOption k (Config.setOption k v s) = v)
  ∧ (∀ k k' v (s : Store),
       k ≠ k' → Config.getOption k' (Config.setOption k v s)
                = Config.getOption k' s).

(** The string contains a slash. *)
Fixpoint has_slash (s : string) : bool :=
  match s with
  | EmptyString => false
  | String c r => Ascii.eqb c "/" || has_slash r
  end.

(** One alternative of [jupyterPathPattern] matches at the start of [s]. *)
Definition matches_segment (seg s : string) : bool :=
  String.prefix ("/" +:+ seg) s
  && (let rest := Dialogs.drop_string (S (String.length seg)) s in
      String.eqb rest "" || String.prefix "/" rest).

(** The URL of the example in the documentation of [parseJupyterUrl], as
    [new URL] reads it. *)
Definition binder_url : Dialogs.URL :=
  {| Dialogs.protocol := "https:";
     Dialogs.host := "hub.2i2c.mybinder.org";
     Dialogs.pathname := "/user/jupyterlab-jupyterlab-demo-7r632cge/lab/tree/demo";
     Dialogs.token_param := Some "AMJL4AzxSeOAnv0F7gHsKQ" |}.

Module MoreSamples.

(** No remote server configured. *)
Definition no_settings : ISettings := {| baseUrl := ""; token := "" |}.

(** What a hybrid refresh makes of the server's [ir] and the browser's
    [python3]. *)
Definition hybrid_merged : ISpecModels :=
  {| spec_default := Some "ir";
     kernelspecs := kernelspecs Sample.lite_registry
                    ∪ kernelspecs Sample.r_registry |}.

Definition ir_raw : JsValue := JObj {[ "display_name" := JStr "R" ]}.

(** The same in remote mode: the server's entry is rewritten. *)
Definition remote_merged `{Platform} : ISpecModels :=
  {| spec_default := Some "ir";
     kernelspecs := kernelspecs Sample.lite_registry
                    ∪ {[ "ir" := normalizedSpec "ir" ir_raw ∅ ]} |}.

(** A notebook's session on the lite backend, with a [python3] kernel. *)
Definition notebook_session : Promoter.ISessionConnection :=
  {| Promoter.session_id := "s1";
     Promoter.path := "Untitled.ipynb";
     Promoter.kernel_name := Some "python3";
     Promoter.owner := Lite |}.

Definition defaults : ServerSettings.Defaults :=
  {| ServerSettings.default_baseUrl := "http://localhost:8888/";
     ServerSettings.default_wsUrl := "ws://localhost:8888/" |}.

End MoreSamples.

(* ===================================================================== *)
(** * Properties of the resource rewriter *)
(* ===================================================================== *)

Lemma append_empty_r (s : string) : s +:+ "" = s.
Proof.
  induction s as [|c s IH]; [done|].
  change (String c (s +:+ "") = String c s). by rewrite IH.
Qed.

Section RewritingProperties.
Context `{Platform}.

Lemma appendToken_token_query token url :
  appendToken token url = url +:+ token_query token url.
Proof.
  unfold appendToken, token_query.
  destruct (decide (token = "")) as [->|Hne]; simpl.
  - by rewrite append_empty_r.
  - destruct (String.eqb_spec token ""); [done|]. simpl.
    destruct (includes url "?"); reflexivity.
Qed.

Lemma transformUrl_absolute settings s :
  startsWith s "http://" = true ∨ startsWith s "https://" = true →
  transformUrl settings s = Ok (appendToken (token settings) s).
Proof.
  intros Habs. unfold transformUrl, absoluteUrl.
  by destruct Habs as [-> | ->]; rewrite ?orb_true_r.
Qed.

Lemma transformUrl_root_relative settings s origin :
  startsWith s "http://" = false → startsWith s "https://" = false →
  startsWith s "/" = true →
  url_origin (baseUrl settings) = Some origin →
  transformUrl settings s = Ok (appendToken (token settings) (origin +:+ s)).
Proof.
  intros H1 H2 H3 Ho. unfold transformUrl, absoluteUrl.
  by rewrite H1, H2, H3, Ho.
Qed.

Lemma transformUrl_relative settings s :
  startsWith s "http://" = false → startsWith s "https://" = false →
  startsWith s "/" = false →
  transformUrl settings s
  = Ok (appendToken (token settings) (URLExt_join (baseUrl settings) s)).
Proof.
  intros H1 H2 H3. unfold transformUrl, absoluteUrl. by rewrite H1, H2, H3.
Qed.

(** With a base URL that parses, no resource path makes the rewriter
    throw. *)
Lemma transformUrl_total settings origin s :
  url_origin (baseUrl settings) = Some origin →
  ∃ u, transformUrl settings s = Ok u.
Proof.
  intros Ho. unfold transformUrl, absoluteUrl. rewrite Ho.
  destruct (_ || _); [by eexists|].
  destruct (startsWith s "/"); by eexists.
Qed.

Lemma transformResources_total settings origin entries acc :
  url_origin (baseUrl settings) = Some origin →
  ∃ r, transformResources settings entries acc = Ok r.
Proof.
  intros Ho. revert acc.
  induction entries as [|[k v] rest IH]; intros acc; simpl; [by eexists|].
  destruct v; try apply IH.
  destruct (transformUrl_total settings origin s Ho) as [u ->]. simpl. apply IH.
Qed.

(** What the loop leaves under each key, for entries with distinct keys:
    the rewritten string of a string entry, the accumulator elsewhere. *)
Lemma transformResources_lookup settings entries acc r k :
  NoDup entries.*1 →
  transformResources settings entries acc = Ok r →
  r !! k =
    match (list_to_map entries : gmap string JsValue) !! k with
    | Some (JStr s) =>
        match transformUrl settings s with
        | Ok u => Some u
        | Throw _ => None
        end
    | _ => acc !! k
    end.
Proof.
  revert acc. induction entries as [|[k0 v0] rest IH]; intros acc Hnd Hr.
  - simpl in *. by inversion Hr.
  - apply NoDup_cons in Hnd as [Hk0 Hnd].
    assert ((list_to_map rest : gmap string JsValue) !! k0 = None) as Hnone
      by by apply not_elem_of_list_to_map_1.
    change (list_to_map ((k0, v0) :: rest))
      with (<[k0 := v0]> (list_to_map rest : gmap string JsValue)).
    destruct (decide (k0 = k)) as [<-|Hne].
    + rewrite lookup_insert_eq. destruct v0; simpl in Hr;
        try (rewrite (IH acc Hnd Hr), Hnone; done).
      destruct (transformUrl settings s) as [u|e]; simpl in Hr; [|done].
      by rewrite (IH _ Hnd Hr), Hnone, lookup_insert_eq.
    + rewrite lookup_insert_ne by done. destruct v0; simpl in Hr;
        try (by rewrite (IH acc Hnd Hr)).
      destruct (transformUrl settings s) as [u|e]; simpl in Hr; [|done].
      rewrite (IH _ Hnd Hr). rewrite lookup_insert_ne by done. done.
Qed.

Lemma transformResources_object settings (m : gmap string JsValue) r k s :
  transformResources settings (object_entries (JObj m)) ∅ = Ok r →
  m !! k = Some (JStr s) →
  ∃ u, transformUrl settings s = Ok u ∧ r !! k = Some u.
Proof.
  simpl. intros Hr Hk.
  pose proof (transformResources_lookup settings _ _ _ k
                (NoDup_fst_map_to_list m) Hr) as Hl.
  rewrite list_to_map_to_list, Hk in Hl.
  destruct (transformUrl settings s) as [u|e] eqn:Hu; [by exists u|].
  exfalso. clear Hl.
  assert (∃ entries, (k, JStr s) ∈ entries ∧
          transformResources settings entries ∅ = Ok r) as (entries & Hin & He).
  { exists (map_to_list m). split; [by apply elem_of_map_to_list|done]. }
  clear Hr Hk. revert He. generalize (∅ : gmap string string).
  induction entries as [|[k0 v0] rest IH]; intros acc He.
  - by apply elem_of_nil in Hin.
  - apply elem_of_cons in Hin as [Heq|Hin].
    + inversion Heq; subst. simpl in He. by rewrite Hu in He.
    + simpl in He. destruct v0; try (by eapply IH).
      destruct (transformUrl settings s0); simpl in He; [by eapply IH|done].
Qed.

End RewritingProperties.

Lemma prefix_cons a s1 b s2 :
  String.prefix (String a s1) (String b s2)
  = if ascii_dec a b then String.prefix s1 s2 else false.
Proof. reflexivity. Qed.

Lemma startsWith_slash_not_http (s : string) :
  startsWith s "/" = true →
  startsWith s "http://" = false ∧ startsWith s "https://" = false.
Proof.
  unfold startsWith. destruct s as [|c r]; [done|].
  rewrite !prefix_cons.
  destruct (ascii_dec "/" c) as [<-|]; [done|discriminate].
Qed.



(* ===================================================================== *)
(** * Totality and defaults of the remote-spec rewriter *)
(* ===================================================================== *)

Section Normalization.
Context `{Platform}.

Lemma transformSpec_total settings origin name rawSpec :
  url_origin (baseUrl settings) = Some origin →
  ∃ transformedResources,
    transformResources settings (object_entries (rawResources rawSpec)) ∅
      = Ok transformedResources
    ∧ transformSpec settings name rawSpec
      = Ok (normalizedSpec name (unwrapSpec rawSpec) transformedResources).
Proof.
  intros Ho. unfold transformSpec.
  destruct (transformResources_total settings origin
              (object_entries (rawResources rawSpec)) ∅ Ho) as [tr Htr].
  exists tr. by rewrite Htr.
Qed.

Lemma transformKernelspecs_total settings origin entries acc :
  url_origin (baseUrl settings) = Some origin →
  ∃ r, transformKernelspecs settings entries acc = Ok r.
Proof.
  intros Ho. revert acc.
  induction entries as [|[name rawSpec] rest IH]; intros acc; simpl;
    [by eexists|].
  destruct (truthy rawSpec); [|apply IH].
  destruct (transformSpec_total settings origin name rawSpec Ho)
    as (tr & _ & ->).
  simpl. apply IH.
Qed.

Lemma normalizedSpec_field name spec tr k dflt :
  (k, dflt) ∈ [("name", JStr name); ("display_name", JStr name);
               ("language", JStr ""); ("argv", JArr []);
               ("env", JObj ∅); ("metadata", JObj ∅)] →
  get_prop (normalizedSpec name spec tr) k = get_prop spec k ?? dflt.
Proof.
  intros Hin. unfold normalizedSpec, get_prop at 1.
  repeat (apply elem_of_cons in Hin as [Heq|Hin];
          [ inversion Heq; subst;
            repeat (rewrite lookup_insert_ne by done);
            by rewrite lookup_insert_eq | ]).
  by apply elem_of_nil in Hin.
Qed.

Lemma normalizedSpec_resources name spec tr :
  get_prop (normalizedSpec name spec tr) "resources" = JObj (JStr <$> tr).
Proof.
  unfold normalizedSpec, get_prop.
  repeat (rewrite lookup_insert_ne by done). by rewrite lookup_insert_eq.
Qed.

End Normalization.




(* ===================================================================== *)
(** * The merged registry *)
(* ===================================================================== *)

Section Registry.
Context `{Platform}.

(** The keys left by the loop over the entries: those of the accumulator
    and those of the truthy entries. *)
Lemma transformKernelspecs_is_Some settings entries acc r k :
  transformKernelspecs settings entries acc = Ok r →
  is_Some (r !! k)
  ↔ is_Some (acc !! k) ∨ ∃ v, (k, v) ∈ entries ∧ truthy v = true.
Proof.
  revert acc. induction entries as [|[k0 v0] rest IH]; intros acc Hr.
  - simpl in Hr. inversion Hr; subst. split; [by left|].
    intros [?|(v & Hin & _)]; [done|]. by apply elem_of_nil in Hin.
  - simpl in Hr. destruct (truthy v0) eqn:Hv0.
    + destruct (transformSpec settings k0 v0) as [sp|e]; simpl in Hr; [|done].
      rewrite (IH _ Hr), lookup_insert_is_Some'. split.
      * intros [[->|?]|(v & Hin & Hv)]; [right|by left|right].
        -- exists v0. split; [left|done].
        -- exists v. split; [by right|done].
      * intros [?|(v & Hin & Hv)]; [left; by right|].
        apply elem_of_cons in Hin as [Heq|Hin].
        -- inversion Heq; subst. left. by left.
        -- right. by exists v.
    + rewrite (IH _ Hr). split.
      * intros [?|(v & Hin & Hv)]; [by left|right].
        exists v. split; [by right|done].
      * intros [?|(v & Hin & Hv)]; [by left|].
        apply elem_of_cons in Hin as [Heq|Hin].
        -- inversion Heq; subst. congruence.
        -- right. by exists v.
Qed.

Lemma transformRemote_dom settings s r :
  _transformRemoteSpecResources (Some settings) (Some s) = Ok r →
  dom (from_option kernelspecs ∅ r)
  = dom (filter (λ kv : string * JsValue, truthy kv.2 = true) (kernelspecs s)).
Proof.
  simpl. destruct (transformKernelspecs _ _ _) as [ks|e] eqn:Hks; [|done].
  simpl. intros Hr. inversion Hr; subst. simpl.
  apply set_eq. intros k. rewrite !elem_of_dom.
  rewrite (transformKernelspecs_is_Some _ _ _ _ k Hks), lookup_empty.
  split.
  - intros [[? ?]|(v & Hin & Hv)]; [done|].
    apply elem_of_map_to_list in Hin. exists v.
    by apply map_lookup_filter_Some.
  - intros [v Hv]. apply map_lookup_filter_Some in Hv as [Hk Hv].
    right. exists v. split; [by apply elem_of_map_to_list|done].
Qed.

(** A refresh that emits [merged] went through the rebuild. *)
Lemma refreshSpecs_rebuilt c m merged :
  refreshSpecs c m = (emit merged m, Ok ()) →
  ∃ newLiteSpecs transformed,
    liteRefresh c = Ok newLiteSpecs
    ∧ match mode c with
      | remote => _transformRemoteSpecResources (_serverSettings m)
                    (fetchServerSpecs c m)
      | hybrid => Ok (fetchServerSpecs c m)
      end = Ok transformed
    ∧ merged = mergeSpecs (fetchServerSpecs c m) transformed newLiteSpecs.
Proof.
  assert (∀ x, emit x m ≠ m) as Hemit.
  { intros x Heq. apply (f_equal specsChanged) in Heq. simpl in Heq.
    apply (f_equal length) in Heq. rewrite length_app in Heq. simpl in Heq. lia. }
  assert (∀ a b, (emit a m, Ok ()) = (emit b m, Ok ()) → a = b) as Hinj.
  { intros a b Heq. apply (f_equal (λ p, _specs p.1)) in Heq.
    simpl in Heq. by inversion Heq. }
  assert (∀ (r : result unit) b, (m, r) = (emit b m, Ok ()) → False) as Hskip.
  { intros r b Heq. apply (f_equal fst) in Heq. simpl in Heq.
    symmetry in Heq. by apply Hemit in Heq. }
  unfold refreshSpecs.
  destruct (liteRefresh c) as [lite|e]; [|intros Hr; exfalso; by eapply Hskip].
  intros Hr. exists lite.
  destruct (match mode c with
            | hybrid => Ok (fetchServerSpecs c m)
            | remote => _ end) as [tr|e] eqn:Htr.
  - exists tr. split; [done|]. split; [done|].
    destruct (fetchServerSpecs c m), lite;
      first [ symmetry; by apply Hinj in Hr | exfalso; by eapply Hskip ].
  - exfalso. destruct (fetchServerSpecs c m), lite; by eapply Hskip.
Qed.

End Registry.




(* ===================================================================== *)
(** * A refresh that finds nothing *)
(* ===================================================================== *)

Lemma fetchServerSpecs_nothing `{Platform} c m :
  server_yields_nothing c m → fetchServerSpecs c m = None.
Proof.
  unfold server_yields_nothing, fetchServerSpecs.
  destruct (mode c).
  - by intros [[e ->]| ->].
  - intros [Hb|[[e He]|(r & Hr & Hcase)]].
    + by rewrite Hb.
    + rewrite He. by destruct (negb _).
    + rewrite Hr. destruct (negb _); [|done].
      destruct Hcase as [->|[[e ->]| ->]]; [done| |]; by destruct (ok r).
Qed.



(* ===================================================================== *)
(** * Routing *)
(* ===================================================================== *)

Lemma hasSpec_lite_spec specs n :
  hasSpec specs n = true ↔ lite_spec specs n.
Proof.
  unfold hasSpec, lite_spec. split.
  - destruct specs as [s|]; [|done].
    destruct (kernelspecs s !! n) as [v|] eqn:Hv; [|done].
    simpl. intros Ht. by exists s, v.
  - intros (s & v & -> & Hv & Ht). by rewrite Hv.
Qed.

Lemma startsLite_true specs n :
  n ≠ "" → lite_spec specs n → startsLite specs (Some n) = true.
Proof.
  intros Hn Hs. simpl. apply hasSpec_lite_spec in Hs as ->.
  by destruct (String.eqb_spec n "").
Qed.

Lemma startsLite_false specs n :
  ¬ lite_spec specs n → startsLite specs (Some n) = false.
Proof.
  intros Hs. simpl. destruct (hasSpec specs n) eqn:Hh.
  - by apply hasSpec_lite_spec in Hh.
  - by rewrite andb_false_r.
Qed.

Lemma startsLite_empty specs : startsLite specs (Some "") = false.
Proof. done. Qed.




(** ** Operations on an id *)

Lemma find_id_is_Some (models : list IModel) (i : string) :
  is_Some (find (λ k, bool_decide (id k = i)) models) ↔ i ∈ ids models.
Proof.
  unfold ids. induction models as [|k rest IH]; simpl.
  - split; [by intros [? ?]|]. intros Hin. by apply elem_of_nil in Hin.
  - rewrite elem_of_cons. case_bool_decide as Hk.
    + split; [by left|by eexists].
    + rewrite IH. split; [by right|]. by intros [?|?].
Qed.

Lemma find_optional_id_is_Some (models : list IModel) (i : string) :
  is_Some (find (λ k, bool_decide (Some (id k) = Some i)) models)
  ↔ i ∈ ids models.
Proof.
  unfold ids. induction models as [|k rest IH]; simpl.
  - split; [by intros [? ?]|]. intros Hin. by apply elem_of_nil in Hin.
  - rewrite elem_of_cons. case_bool_decide as Hk.
    + split; [left; congruence|by eexists].
    + rewrite IH. split; [by right|]. intros [?|?]; [congruence|done].
Qed.

Lemma kernel_isLite_running km i name :
  i ∈ ids (Kernel.liteRunning km) →
  Kernel._isLiteKernel km (Some i) name = true.
Proof.
  intros Hin. unfold Kernel._isLiteKernel.
  apply find_optional_id_is_Some in Hin.
  by rewrite (bool_decide_eq_true_2 _ Hin).
Qed.

Lemma kernel_isLite_false km i name :
  i ∉ ids (Kernel.liteRunning km) →
  ¬ lite_spec (Kernel.liteKernelSpecs km) (default "" name) →
  Kernel._isLiteKernel km (Some i) name = false.
Proof.
  intros Hin Hs. unfold Kernel._isLiteKernel.
  rewrite <- find_optional_id_is_Some in Hin.
  rewrite (bool_decide_eq_false_2 _ Hin). simpl.
  destruct (hasSpec _ _) eqn:Hh; [|done].
  by apply hasSpec_lite_spec in Hh.
Qed.

Lemma kernel_isLite_spec km i name :
  lite_spec (Kernel.liteKernelSpecs km) (default "" name) →
  Kernel._isLiteKernel km i name = true.
Proof.
  intros Hs. unfold Kernel._isLiteKernel.
  apply hasSpec_lite_spec in Hs as ->. by rewrite orb_true_r.
Qed.

Lemma session_isLite km i :
  Session._isLiteSession km i = bool_decide (i ∈ ids (Session.liteRunning km)).
Proof.
  unfold Session._isLiteSession. apply bool_decide_ext, find_id_is_Some.
Qed.

Lemma C2_counterexample :
  let kc := KernelClient.new (Some Sample.lite_registry) in
  let w := Worlds.answering [Worlds.k1] [] in
  outcome KernelClient.listRunning w = Ok [Worlds.k1]
  ∧ calls (KernelClient.shutdown kc "k1") w = [call Server (Shutdown "k1")]
  ∧ calls (KernelClient.restart kc "k1") w = [call Server (Restart "k1")]
  ∧ calls (KernelClient.interrupt kc "k1") w = [call Server (Interrupt "k1")]
  ∧ sent_to Lite (calls (KernelClient.shutdown kc "k1") w) = [].
Proof. repeat split. Qed.

(** C2 (amended). The kernel client classifies an id by the set of lite
    kernel ids it has recorded from the [add] and [remove] events of the
    lite client since it was constructed, not by the lite backend's
    running enumeration: for every id in that set, each of [shutdown],
    [restart] and [interrupt] is delegated to the lite backend exactly
    once and never to the server; an [add] event puts the id of its
    kernel in the set and a [remove] event takes it out. The [shutdown] of the kernel manager and of the
    session manager is delegated to the lite backend exactly once, and
    never to the server, for every id that the lite manager's running
    enumeration reports. *)
Theorem C2_local_ids_are_served_locally (w : World) (i : string) :
  (∀ kc : KernelClient.HybridKernelClient,
     i ∈ KernelClient._liteKernelIds kc →
     calls (KernelClient.shutdown kc i) w = [call Lite (Shutdown i)]
     ∧ calls (KernelClient.restart kc i) w = [call Lite (Restart i)]
     ∧ calls (KernelClient.interrupt kc i) w = [call Lite (Interrupt i)])
  ∧ (∀ (kc : KernelClient.HybridKernelClient) args k,
       KernelClient.type args = KernelClient.add →
       KernelClient.newValue args = Some k →
       KernelClient._liteKernelIds (KernelClient.onLiteChanged args kc)
       = {[ id k ]} ∪ KernelClient._liteKernelIds kc)
  ∧ (∀ (kc : KernelClient.HybridKernelClient) args k,
       KernelClient.type args = KernelClient.remove →
       KernelClient.oldValue args = Some k →
       KernelClient._liteKernelIds (KernelClient.onLiteChanged args kc)
       = KernelClient._liteKernelIds kc ∖ {[ id k ]})
  ∧ (∀ km : Kernel.HybridKernelManager,
       i ∈ ids (Kernel.liteRunning km) →
       calls (Kernel.shutdown km i) w = [call Lite (Shutdown i)])
  ∧ (∀ sm : Session.HybridSessionManager,
       i ∈ ids (Session.liteRunning sm) →
       calls (Session.shutdown sm i) w = [call Lite (Shutdown i)]).
Proof.
  split; [|split; [|split; [|split]]].
  - intros kc Hin.
    unfold KernelClient.shutdown, KernelClient.restart, KernelClient.interrupt,
      KernelClient._isLiteKernel.
    by rewrite (bool_decide_eq_true_2 _ Hin).
  - intros kc args k Ht Hv. unfold KernelClient.onLiteChanged.
    by rewrite Ht, Hv.
  - intros kc args k Ht Hv. unfold KernelClient.onLiteChanged.
    by rewrite Ht, Hv.
  - intros km Hin. unfold Kernel.shutdown.
    by rewrite (kernel_isLite_running km i None Hin).
  - intros sm Hin. unfold Session.shutdown.
    by rewrite session_isLite, (bool_decide_eq_true_2 _ Hin).
Qed.

Lemma C2_witness :
  let added :=
    {| KernelClient.type := KernelClient.add; KernelClient.key := "k1";
       KernelClient.oldValue := None; KernelClient.newValue := Some Worlds.k1 |} in
  let kc := KernelClient.onLiteChanged added (KernelClient.new None) in
  let w := Worlds.answering [Worlds.k1] [] in
  calls (KernelClient.shutdown kc "k1") w = [call Lite (Shutdown "k1")]
  ∧ calls (KernelClient.restart kc "k1") w = [call Lite (Restart "k1")]
  ∧ calls (KernelClient.interrupt kc "k1") w = [call Lite (Interrupt "k1")].
Proof.
  intros added kc w.
  pose proof (C2_local_ids_are_served_locally w "k1") as (Hkc & Hadd & _).
  apply Hkc. unfold kc.
  rewrite (Hadd (KernelClient.new None) added Worlds.k1 eq_refl eq_refl).
  apply elem_of_union_l, elem_of_singleton. reflexivity.
Defined.




(** ** Lookup and enumeration *)

Lemma C8_counterexample :
  let w := Worlds.answering [Worlds.lite_side] [Worlds.server_side] in
  w Lite _ (FindById "k") = Ok (Some Worlds.lite_side)
  ∧ Kernel.findById "k" w
    = ([call Server (FindById "k")], Ok (Some Worlds.server_side))
  ∧ Session.findById "k" w
    = ([call Server (FindById "k")], Ok (Some Worlds.server_side))
  ∧ sent_to Lite (calls (Kernel.findById "k") w) = [].
Proof. repeat split. Qed.

(** C8 (amended). For every id, [findById] probes the server backend
    first and the lite backend second: a model found by the server is
    returned without asking the lite backend; when the server has none,
    the answer of the lite backend is returned, so the result is
    [undefined] when neither backend has a model for the id. The kernel
    manager and the session manager behave alike. *)
Theorem C8_findById_probes_server_first (w : World) (i : string) :
  (∀ k, w Server _ (FindById i) = Ok (Some k) →
        Kernel.findById i w = ([call Server (FindById i)], Ok (Some k)))
  ∧ (w Server _ (FindById i) = Ok None →
     Kernel.findById i w
     = ([call Server (FindById i); call Lite (FindById i)],
        w Lite _ (FindById i)))
  ∧ (w Server _ (FindById i) = Ok None →
     w Lite _ (FindById i) = Ok None →
     outcome (Kernel.findById i) w = Ok None)
  ∧ Session.findById i w = Kernel.findById i w.
Proof.
  unfold Kernel.findById, Session.findById, outcome, bind, await, ret.
  split; [|split; [|split]].
  - by intros k ->.
  - by intros ->.
  - by intros -> ->.
  - done.
Qed.

Lemma C8_witness :
  let w := Worlds.answering [Worlds.k1] [Worlds.k2] in
  Kernel.findById "k2" w = ([call Server (FindById "k2")], Ok (Some Worlds.k2))
  ∧ Kernel.findById "k1" w
    = ([call Server (FindById "k1"); call Lite (FindById "k1")],
       Ok (Some Worlds.k1))
  ∧ outcome (Kernel.findById "k3") w = Ok None.
Proof.
  intros w. split; [|split].
  - exact (proj1 (C8_findById_probes_server_first w "k2") Worlds.k2 eq_refl).
  - exact (proj1 (proj2 (C8_findById_probes_server_first w "k1")) eq_refl).
  - exact (proj1 (proj2 (proj2 (C8_findById_probes_server_first w "k3")))
             eq_refl eq_refl).
Defined.

(** C9. When the lite backend enumerates its kernels and the server's
    enumeration fails, [listRunning] resolves with exactly the lite
    kernels; when both enumerations succeed it resolves with the lite
    kernels followed by the server's. Each backend is asked once. *)
Theorem C9_listRunning_survives_remote_failure
    (w : World) (liteKernels : list IModel) :
  w Lite _ ListRunning = Ok liteKernels →
  (∀ e, w Server _ ListRunning = Throw e →
        outcome KernelClient.listRunning w = Ok liteKernels)
  ∧ (∀ remoteKernels, w Server _ ListRunning = Ok remoteKernels →
        outcome KernelClient.listRunning w = Ok (liteKernels ++ remoteKernels))
  ∧ calls KernelClient.listRunning w
    = [call Lite ListRunning; call Server ListRunning].
Proof.
  intros Hl.
  unfold KernelClient.listRunning, outcome, calls, bind, try_catch, await, ret.
  rewrite Hl. split; [|split].
  - by intros e ->.
  - by intros remoteKernels ->.
  - by destruct (w Server _ ListRunning).
Qed.

Lemma C9_witness :
  outcome KernelClient.listRunning (Worlds.offline [Worlds.k1])
  = Ok [Worlds.k1]
  ∧ outcome KernelClient.listRunning (Worlds.answering [Worlds.k1] [Worlds.k2])
    = Ok [Worlds.k1; Worlds.k2].
Proof.
  split.
  - exact (proj1 (C9_listRunning_survives_remote_failure
                    (Worlds.offline [Worlds.k1]) [Worlds.k1] eq_refl)
                 (Rejected "Failed to fetch") eq_refl).
  - exact (proj1 (proj2 (C9_listRunning_survives_remote_failure
                    (Worlds.answering [Worlds.k1] [Worlds.k2]) [Worlds.k1]
                    eq_refl))
                 [Worlds.k2] eq_refl).
Defined.

(* ===================================================================== *)
(** * RemoteServerConfig.update *)
(* ===================================================================== *)

Section Update.
Import Config.
Context {Store : Type} `{PageConfig Store}.

Lemma update_writes (config : Partial) (c : RemoteServerConfig Store) :
  let ws := expected_writes config (baseUrl c) (token c) in
  writes (update config c) = writes c ++ ws
  ∧ store (update config c)
    = foldl (λ s kv, setOption kv.1 kv.2 s) (store c) ws
  ∧ changed (update config c)
    = (if decide (ws = []) then changed c else S (changed c))
  ∧ _isConnected (update config c) = _isConnected c.
Proof.
  unfold update, expected_writes.
  destruct config as [[b|] [t|]]; simpl;
    repeat match goal with
           | |- context [String.eqb ?x ?y] => destruct (String.eqb_spec x y)
           | |- context [decide (?x = ?y :> string)] => destruct (decide (x = y))
           end; simpl; try done;
    rewrite ?app_nil_r, <- ?app_assoc; done.
Qed.

End Update.

(** C10. For every stored configuration, [update] with [baseUrl] and
    [token] each omitted or equal to the stored value leaves the
    configuration as it was: nothing is written to the store and [changed]
    is not emitted. When at least one field is given and differs from the
    stored value, each such field is written to the store, and only those,
    and [changed] is emitted exactly once. *)
Theorem C10_update_writes_only_differences
    {Store : Type} `{Config.PageConfig Store}
    (config : Config.Partial) (c : Config.RemoteServerConfig Store) :
  let same (field : option string) (current : string) :=
    field = None ∨ field = Some current in
  let ws := expected_writes config (Config.baseUrl c) (Config.token c) in
  (same (Config.new_baseUrl config) (Config.baseUrl c) →
   same (Config.new_token config) (Config.token c) →
   Config.update config c = c)
  ∧ (¬ same (Config.new_baseUrl config) (Config.baseUrl c)
     ∨ ¬ same (Config.new_token config) (Config.token c) →
     ws ≠ []
     ∧ Config.writes (Config.update config c) = Config.writes c ++ ws
     ∧ Config.store (Config.update config c)
       = foldl (λ s kv, Config.setOption kv.1 kv.2 s) (Config.store c) ws
     ∧ Config.changed (Config.update config c) = S (Config.changed c)).
Proof.
  intros same ws. split.
  - intros Hb Ht. unfold Config.update.
    destruct c as [st wr conn ch]. destruct config as [b t]. simpl in *.
    destruct Hb as [->| ->], Ht as [->| ->]; simpl;
      rewrite ?String.eqb_refl; done.
  - intros Hdiff.
    destruct (update_writes config c) as (Hw & Hs & Hc & _). fold ws in Hw, Hs, Hc.
    assert (ws ≠ []) as Hne.
    { unfold ws, expected_writes, same in *.
      destruct config as [[b|] [t|]]; simpl in *;
        repeat case_decide; subst; try done;
        exfalso; destruct Hdiff as [Hd|Hd]; apply Hd; auto. }
    split; [done|]. split; [done|]. split; [done|].
    rewrite Hc. by case_decide.
Qed.

Lemma C10_witness :
  let unchanged :=
    {| Config.new_baseUrl := Some "https://host/prefix";
       Config.new_token := None |} in
  let retoken :=
    {| Config.new_baseUrl := Some "https://host/prefix";
       Config.new_token := Some "xyz" |} in
  Config.update unchanged Stores.configured = Stores.configured
  ∧ Config.writes (Config.update retoken Stores.configured)
    = [(Config.PAGE_CONFIG_TOKEN_KEY, "xyz")]
  ∧ Config.changed (Config.update retoken Stores.configured) = 1.
Proof.
  intros unchanged retoken. split.
  - refine (proj1 (C10_update_writes_only_differences unchanged
                     Stores.configured) _ _); [by right|by left].
  - destruct (proj2 (C10_update_writes_only_differences retoken
                       Stores.configured)) as (_ & Hw & _ & Hc).
    + right. intros [?|?]; discriminate.
    + split; [exact Hw|exact Hc].
Defined.

(* ===================================================================== *)
(** * Further properties of the spec manager *)
(* ===================================================================== *)

Section SpecManager.
Context `{Platform}.
Import SpecManagerRuns.

(** With a base URL that parses, the rewriter returns for every payload. *)
Lemma transformRemote_total settings origin specs :
  url_origin (baseUrl settings) = Some origin →
  ∃ r, _transformRemoteSpecResources (Some settings) specs = Ok r.
Proof.
  intros Ho. destruct specs as [s|]; simpl; [|by eexists].
  destruct (transformKernelspecs_total settings origin
              (map_to_list (kernelspecs s)) ∅ Ho) as [r ->].
  by eexists.
Qed.

(** A refresh either leaves the manager as it is or stores and emits one
    registry. *)
Lemma refreshSpecs_step c m :
  (refreshSpecs c m).1 = m
  ∨ ∃ merged, refreshSpecs c m = (emit merged m, Ok ()).
Proof.
  unfold refreshSpecs.
  destruct (liteRefresh c) as [lite|e]; [|by left].
  destruct (fetchServerSpecs c m) as [s|], lite as [l|]; try (by left);
    (destruct (match mode c with hybrid => _ | remote => _ end) as [tr|e];
     [right; by eexists|by left]).
Qed.

(** Once a registry is stored, no later refresh brings [null] back. *)
Lemma refreshes_keep_specs cs m :
  is_Some (_specs m) → is_Some (_specs (refreshes cs m)).
Proof.
  unfold refreshes. revert m.
  induction cs as [|c cs IH]; intros m Hm; [done|]. simpl. apply IH.
  destruct (refreshSpecs_step c m) as [->|[merged ->]]; [done|by eexists].
Qed.

(** X1. Over any sequence of refreshes of a new manager, the stored
    registry is the one emitted last, at most one registry is emitted per
    refresh, the server settings are never touched, and once a registry
    is stored no later refresh brings [null] back. *)
Theorem X1_stored_registry_is_last_emitted
    (serverSettings : option ISettings) (settings : ISettings)
    (cs : list Collaborators) :
  let m := refreshes cs (new serverSettings settings) in
  _specs m = last (specsChanged m)
  ∧ length (specsChanged m) ≤ length cs
  ∧ _serverSettings m = serverSettings
  ∧ managerSettings m = settings
  ∧ (∀ later, is_Some (_specs m) → is_Some (_specs (refreshes later m))).
Proof.
  intros m. split; [|split; [|split; [|split]]];
    [| | | |intros later; apply refreshes_keep_specs].
  all: unfold m, refreshes; clear m.
  all: induction cs as [|c cs IH] using rev_ind; [done|].
  all: rewrite foldl_app; simpl.
  all: set (m := foldl _ _ cs) in *.
  all: rewrite ?length_app; simpl.
  all: destruct (refreshSpecs_step c m) as [->|[merged ->]]; simpl;
    rewrite ?last_snoc, ?length_app; simpl; try done; lia.
Qed.


(** X3. In hybrid mode the rebuilt [kernelspecs] is the server's
    dictionary overlaid by the in-browser one, entry for entry: a server
    entry whose key the browser does not define is stored as the server
    gave it, its resources not rewritten. *)
Theorem X3_hybrid_mode_keeps_server_entries
    (c : Collaborators) (m : HybridKernelSpecManager) (merged : ISpecModels) :
  mode c = hybrid →
  refreshSpecs c m = (emit merged m, Ok ()) →
  let server := from_option kernelspecs ∅ (fetchServerSpecs c m) in
  let lite :=
    match liteRefresh c with
    | Ok (Some l) => kernelspecs l
    | _ => ∅
    end in
  kernelspecs merged = lite ∪ server
  ∧ (∀ k raw, server !! k = Some raw → lite !! k = None →
       kernelspecs merged !! k = Some raw).
Proof.
  intros Hmode Hr server lite.
  destruct (refreshSpecs_rebuilt c m merged Hr)
    as (newLite & transformed & Hlite & Htr & ->).
  rewrite Hmode in Htr. injection Htr as <-.
  assert (lite = from_option kernelspecs ∅ newLite) as ->.
  { unfold lite. rewrite Hlite. by destruct newLite. }
  split; [done|]. intros k raw Hs Hl. simpl.
  by rewrite lookup_union_r.
Qed.

(** X4. In remote mode with no base URL configured, a refresh never looks
    at the network: whatever [fetch] would answer, the registry is rebuilt
    from the in-browser specs alone, or left alone when there are none. *)
Theorem X4_unconfigured_remote_mode_is_lite_only
    (c : Collaborators) (m : HybridKernelSpecManager) :
  mode c = remote →
  baseUrl (managerSettings m) = "" →
  refreshSpecs c m
  = match liteRefresh c with
    | Throw e => (m, Throw e)
    | Ok None => (m, Ok ())
    | Ok (Some lite) =>
        (emit {| spec_default := Some (default "" (spec_default lite));
                 kernelspecs := kernelspecs lite |} m, Ok ())
    end.
Proof.
  intros Hmode Hbase. unfold refreshSpecs, fetchServerSpecs.
  rewrite Hmode, Hbase. simpl.
  destruct (liteRefresh c) as [[lite|]|e]; try done.
  destruct (_serverSettings m); simpl;
    unfold mergeSpecs; simpl; rewrite (right_id_L ∅ (∪));
    by destruct (spec_default lite).
Qed.

(** What the loop over the entries leaves under each key, for entries
    with distinct keys: the rewriting of a truthy entry, the accumulator
    elsewhere. *)
Lemma transformKernelspecs_lookup settings entries acc r k :
  NoDup entries.*1 →
  transformKernelspecs settings entries acc = Ok r →
  r !! k =
    match (list_to_map entries : gmap string JsValue) !! k with
    | Some raw =>
        if truthy raw then
          match transformSpec settings k raw with
          | Ok v => Some v
          | Throw _ => None
          end
        else acc !! k
    | None => acc !! k
    end.
Proof.
  revert acc. induction entries as [|[k0 v0] rest IH]; intros acc Hnd Hr.
  - simpl in *. by inversion Hr.
  - apply NoDup_cons in Hnd as [Hk0 Hnd].
    assert ((list_to_map rest : gmap string JsValue) !! k0 = None) as Hnone
      by by apply not_elem_of_list_to_map_1.
    change (list_to_map ((k0, v0) :: rest))
      with (<[k0 := v0]> (list_to_map rest : gmap string JsValue)).
    simpl in Hr. destruct (decide (k0 = k)) as [<-|Hne].
    + rewrite lookup_insert_eq. destruct (truthy v0).
      * destruct (transformSpec settings k0 v0) as [v|e]; simpl in Hr; [|done].
        by rewrite (IH _ Hnd Hr), Hnone, lookup_insert_eq.
      * by rewrite (IH _ Hnd Hr), Hnone.
    + rewrite lookup_insert_ne by done. destruct (truthy v0).
      * destruct (transformSpec settings k0 v0) as [v|e]; simpl in Hr; [|done].
        rewrite (IH _ Hnd Hr). by rewrite lookup_insert_ne.
      * by rewrite (IH _ Hnd Hr).
Qed.

(** The rewriter throws as soon as one truthy entry does. *)
Lemma transformKernelspecs_entry_ok settings entries acc r k raw :
  transformKernelspecs settings entries acc = Ok r →
  (k, raw) ∈ entries → truthy raw = true →
  ∃ v, transformSpec settings k raw = Ok v.
Proof.
  revert acc. induction entries as [|[k0 v0] rest IH]; intros acc Hr Hin Ht.
  - by apply elem_of_nil in Hin.
  - simpl in Hr. apply elem_of_cons in Hin as [[= <- <-]|Hin].
    + rewrite Ht in Hr.
      destruct (transformSpec settings k raw) as [v|e]; [by eexists|done].
    + destruct (truthy v0); [|by eapply IH].
      destruct (transformSpec settings k0 v0); simpl in Hr; [by eapply IH|done].
Qed.



End SpecManager.

(* ===================================================================== *)
(** * Further properties of the routers *)
(* ===================================================================== *)

Lemma not_in_server_ids lite server model :
  disjoint_ids lite server → model ∈ server → id model ∉ ids lite.
Proof.
  intros Hdis Hin Hlite. apply (Hdis _ Hlite).
  unfold ids. apply list_elem_of_fmap. by exists model.
Qed.

Lemma in_ids (models : list IModel) model : model ∈ models → id model ∈ ids models.
Proof. intros Hin. unfold ids. apply list_elem_of_fmap. by exists model. Qed.


Section BulkOperations.
Import Tasks.

(** X8. [shutdownAll] and [refreshRunning] of the kernel and session
    managers ask both backends, the server first, each exactly once and
    whatever the other answers; the call resolves exactly when both
    backends resolve, so a failure of the server is not hidden. *)
Theorem X8_manager_bulk_operations_ask_both (timing : Timing) (w : Answers) :
  tasks (Managers.shutdownAll timing) w
  = [sent Server ShutdownAll; sent Lite ShutdownAll]
  ∧ tasks (Managers.refreshRunning timing) w
    = [sent Server RefreshRunning; sent Lite RefreshRunning]
  ∧ (settled (Managers.shutdownAll timing) w = Ok ()
     ↔ w Server _ ShutdownAll = Ok () ∧ w Lite _ ShutdownAll = Ok ())
  ∧ (settled (Managers.refreshRunning timing) w = Ok ()
     ↔ w Server _ RefreshRunning = Ok () ∧ w Lite _ RefreshRunning = Ok ()).
Proof.
  unfold Managers.shutdownAll, Managers.refreshRunning, tasks, settled, all,
    await, errors. simpl.
  split; [done|]. split; [done|].
  split.
  - destruct (w Server _ ShutdownAll) as [[]|e1],
      (w Lite _ ShutdownAll) as [[]|e2]; simpl; split;
      try done; by intros [? ?].
  - destruct (w Server _ RefreshRunning) as [[]|e1],
      (w Lite _ RefreshRunning) as [[]|e2]; simpl; split;
      try done; by intros [? ?].
Qed.

(** The shutdowns awaited together are all sent, in the order of the
    enumeration. *)
Lemma all_shutdowns_tasks timing (kernels : list IModel) w :
  tasks (all timing ((λ k, await Server (Single (Shutdown (id k)))) <$> kernels)) w
  = (λ k, sent Server (Single (Shutdown (id k)))) <$> kernels.
Proof.
  unfold tasks, all. cbn [fst].
  induction kernels as [|k rest IH]; [done|].
  rewrite !fmap_cons. cbn [concat fst await]. by rewrite IH.
Qed.

Lemma shutdownAll_run timing w :
  ClientTasks.shutdownAll timing w
  = match w Lite _ ShutdownAll with
    | Throw e => ([sent Lite ShutdownAll], Throw e)
    | Ok _ =>
        match w Server _ (Single ListRunning) with
        | Throw _ =>
            ([sent Lite ShutdownAll; sent Server (Single ListRunning)], Ok ())
        | Ok ks =>
            let '(log, _) :=
              all timing
                ((λ k, await Server (Single (Shutdown (id k)))) <$> ks) w in
            (sent Lite ShutdownAll :: sent Server (Single ListRunning) :: log,
             Ok ())
        end
    end.
Proof.
  unfold ClientTasks.shutdownAll, bind, try_catch, ret.
  unfold await at 1. destruct (w Lite _ ShutdownAll) as [[]|e]; [|done].
  unfold await at 1.
  destruct (w Server _ (Single ListRunning)) as [ks|e]; [|done].
  destruct (all timing _ w) as [log [[]|e]]; simpl; by rewrite ?app_nil_r.
Qed.

(** X9. [shutdownAll] of the kernel client shuts the lite kernels down
    first; if that fails nothing is sent to the server and the call
    rejects. Otherwise the call resolves whatever the server does: it
    enumerates the server's kernels once and sends exactly one shutdown
    for each kernel enumerated, in order, and when the enumeration fails
    it sends none. *)
Theorem X9_client_shutdownAll (timing : Timing) (w : Answers) :
  (∀ e, w Lite _ ShutdownAll = Throw e →
        ClientTasks.shutdownAll timing w = ([sent Lite ShutdownAll], Throw e))
  ∧ (w Lite _ ShutdownAll = Ok () →
     settled (ClientTasks.shutdownAll timing) w = Ok ()
     ∧ (∀ remoteKernels,
          w Server _ (Single ListRunning) = Ok remoteKernels →
          tasks (ClientTasks.shutdownAll timing) w
          = sent Lite ShutdownAll :: sent Server (Single ListRunning)
            :: ((λ k, sent Server (Single (Shutdown (id k)))) <$> remoteKernels))
     ∧ (∀ e, w Server _ (Single ListRunning) = Throw e →
          tasks (ClientTasks.shutdownAll timing) w
          = [sent Lite ShutdownAll; sent Server (Single ListRunning)])).
Proof.
  rewrite shutdownAll_run. unfold tasks, settled. rewrite shutdownAll_run.
  split.
  - by intros e ->.
  - intros ->. split; [|split].
    + destruct (w Server _ (Single ListRunning)) as [ks|e]; [|done].
      by destruct (all timing _ w) as [log [[]|e]].
    + intros ks ->. rewrite <- all_shutdowns_tasks with (timing := timing) (w := w).
      unfold tasks. by destruct (all timing _ w) as [log [[]|e]].
    + by intros e ->.
Qed.

(** X10. [stopIfNeeded] looks the path up on the server, then on the lite
    backend; when neither has a session for it, it shuts nothing down.
    When one is found, it sends exactly one shutdown, for that session's
    id, and sends it to the lite backend exactly when the id is in the
    lite manager's running list. *)
Theorem X10_stopIfNeeded
    (sm : Session.HybridSessionManager) (path : string) (w : Answers) :
  (w Server _ (FindByPath path) = Ok None →
   w Lite _ (FindByPath path) = Ok None →
   Managers.stopIfNeeded sm path w
   = ([sent Server (FindByPath path); sent Lite (FindByPath path)], Ok ()))
  ∧ (∀ s, w Server _ (FindByPath path) = Ok (Some s) →
       let home :=
         if bool_decide (id s ∈ ids (Session.liteRunning sm)) then Lite
         else Server in
       Managers.stopIfNeeded sm path w
       = ([sent Server (FindByPath path);
           sent home (Single (Shutdown (id s)))],
          w home _ (Single (Shutdown (id s)))))
  ∧ (∀ s, w Server _ (FindByPath path) = Ok None →
       w Lite _ (FindByPath path) = Ok (Some s) →
       let home :=
         if bool_decide (id s ∈ ids (Session.liteRunning sm)) then Lite
         else Server in
       Managers.stopIfNeeded sm path w
       = ([sent Server (FindByPath path); sent Lite (FindByPath path);
           sent home (Single (Shutdown (id s)))],
          w home _ (Single (Shutdown (id s))))).
Proof.
  split; [|split].
  - intros Hs Hl.
    unfold Managers.stopIfNeeded, Managers.findByPath, bind, await, ret.
    by rewrite Hs, Hl.
  - intros s Hs home.
    unfold Managers.stopIfNeeded, Managers.findByPath, bind, await, ret, lift,
      Session.shutdown.
    rewrite Hs, session_isLite. unfold home. by case_bool_decide.
  - intros s Hs Hl home.
    unfold Managers.stopIfNeeded, Managers.findByPath, bind, await, ret, lift,
      Session.shutdown.
    rewrite Hs, Hl, session_isLite. unfold home. by case_bool_decide.
Qed.

End BulkOperations.

(** ** The kernel client's record of lite kernels *)

Lemma onLiteChanged_elem i args c :
  i ∈ KernelClient._liteKernelIds (KernelClient.onLiteChanged args c)
  ↔ adds i args ∨ (i ∈ KernelClient._liteKernelIds c ∧ ¬ removes i args).
Proof.
  destruct args as [ty key old new]. unfold adds, removes.
  unfold KernelClient.onLiteChanged. simpl.
  destruct ty, new as [v|], old as [v'|]; simpl;
    rewrite ?elem_of_union, ?elem_of_difference, ?elem_of_singleton;
    firstorder (subst; eauto; congruence).
Qed.

Lemma replay_snoc events args c :
  ClientTasks.replay (events ++ [args]) c
  = KernelClient.onLiteChanged args (ClientTasks.replay events c).
Proof. unfold ClientTasks.replay. by rewrite foldl_app. Qed.

Lemma adds_not_removes i args : adds i args → ¬ removes i args.
Proof. intros [Ha _] [Hr _]. congruence. Qed.

(** X11. After any sequence of events of the lite client, the kernel
    client has recorded an id exactly when some event added a kernel with
    that id and no later event removed one with that id; it has emitted
    every event on its own [changed] signal, in order, and its kernel
    specs are the ones it was constructed with. *)
Theorem X11_recorded_ids_follow_the_events
    (specs : option ISpecModels) (events : list KernelClient.IChangedArgs)
    (i : string) :
  let c := ClientTasks.replay events (KernelClient.new specs) in
  (i ∈ KernelClient._liteKernelIds c
   ↔ ∃ before args after,
       events = before ++ args :: after
       ∧ adds i args ∧ Forall (λ later, ¬ removes i later) after)
  ∧ KernelClient.changed c = events
  ∧ KernelClient.liteKernelSpecs c = specs.
Proof.
  induction events as [|e events IH] using rev_ind.
  - simpl. split; [|done]. split; [by intros ?%not_elem_of_empty|].
    intros (before & args & after & Heq & _). by destruct before.
  - rewrite replay_snoc.
    set (c := ClientTasks.replay events (KernelClient.new specs)) in *.
    simpl in IH. destruct IH as (IH & Hch & Hsp).
    split; [|split; [simpl; by rewrite Hch|done]].
    rewrite onLiteChanged_elem, IH. split.
    + intros [Ha|[(before & args & after & -> & Ha & Hno) Hnr]].
      * exists events, e, []. split; [done|]. split; [done|constructor].
      * exists before, args, (after ++ [e]).
        split; [by rewrite <- app_assoc|]. split; [done|].
        apply Forall_app. split; [done|]. by apply Forall_singleton.
    + intros (before & args & after & Heq & Ha & Hno).
      destruct after as [|x after _] using rev_ind.
      * apply app_inj_tail in Heq as [-> ->]. by left.
      * rewrite app_comm_cons, app_assoc in Heq.
        apply app_inj_tail in Heq as [-> ->].
        apply Forall_app in Hno as [Hno Hx].
        apply Forall_inv in Hx.
        right. split; [|done]. by exists before, args, after.
Qed.

(* ===================================================================== *)
(** * Promotion *)
(* ===================================================================== *)

Section Promotion.
Import Tasks Promoter.

(** X12. [promoteKernel] leaves a session whose kernel is not an
    in-browser one untouched and calls nothing. For a session whose
    kernel is an in-browser one it never rejects: it shuts the session
    down and, if that succeeds, asks the session manager for a new
    session with the same kernel name. With the hybrid session manager
    over the same in-browser specs, that name routes the new session to
    the lite backend again: the server is never asked to start it. When
    the shutdown or the start fails, the original session is returned. *)
Theorem X12_promotion_restarts_on_the_lite_backend
    (specs : option ISpecModels) (sm : Session.HybridSessionManager)
    (session : ISessionConnection) (w : Answers) :
  let stop := Single (Shutdown (session_id session)) in
  (isLiteKernel specs (Some session) = false →
   promoteKernel specs sm session w = ([], Ok (Unchanged session)))
  ∧ (isLiteKernel specs (Some session) = true →
     Session.liteKernelSpecs sm = specs →
     ∃ kernelName,
       kernel_name session = Some kernelName
       ∧ let start := Single (StartNew (Some kernelName)) in
         (∀ e, w (owner session) _ stop = Throw e →
            promoteKernel specs sm session w
            = ([sent (owner session) stop], Ok (Unchanged session)))
         ∧ (w (owner session) _ stop = Ok () →
            promoteKernel specs sm session w
            = ([sent (owner session) stop; sent Lite start],
               match w Lite _ start with
               | Ok model => Ok (Started model)
               | Throw _ => Ok (Unchanged session)
               end))).
Proof.
  intros stop. unfold promoteKernel. split.
  - by intros ->.
  - intros Hlite Hsm. rewrite Hlite. simpl.
    unfold isLiteKernel in Hlite.
    destruct (kernel_name session) as [n|] eqn:Hn; [|done].
    destruct (String.eqb_spec n "") as [|Hne]; [done|].
    exists n. split; [done|]. simpl.
    assert (startsLite (Session.liteKernelSpecs sm) (Some n) = true) as Hs.
    { simpl. rewrite Hsm, Hlite. by destruct (String.eqb_spec n ""). }
    unfold try_catch, bind, await, lift, ret, Session.startNew. rewrite Hs.
    fold stop. split.
    + by intros e ->.
    + intros ->. unfold Backends.await, single. simpl.
      by destruct (w Lite IModel (Single (StartNew (Some n)))).
Qed.

End Promotion.

(* ===================================================================== *)
(** * Further properties of the configuration *)
(* ===================================================================== *)

Section Configuration.
Import Config ServerSettings.
Context {Store : Type} `{PageConfig Store}.

Lemma setConnected_fields (b : bool) (c : RemoteServerConfig Store) :
  _isConnected (setConnected b c) = b
  ∧ store (setConnected b c) = store c
  ∧ writes (setConnected b c) = writes c
  ∧ changed (setConnected b c)
    = (if eqb (_isConnected c) b then 0 else 1) + changed c.
Proof.
  unfold setConnected. destruct c as [st wr conn ch]. simpl.
  by destruct conn, b.
Qed.

(** X13. Over any sequence of calls of [setConnected], [changed] is
    emitted once for each call whose value differs from the connection
    state it finds, and for no other; the state ends as the last value
    given; the store is never read or written. *)
Theorem X13_setConnected_emits_on_flips
    (states : list bool) (c : RemoteServerConfig Store) :
  let c' := foldl (λ c b, setConnected b c) c states in
  changed c' = changed c + flips (_isConnected c) states
  ∧ _isConnected c' = default (_isConnected c) (last states)
  ∧ store c' = store c
  ∧ writes c' = writes c.
Proof.
  revert c. induction states as [|b rest IH]; intros c; simpl.
  - split; [lia|done].
  - destruct (IH (setConnected b c)) as (Hch & Hconn & Hst & Hwr).
    destruct (setConnected_fields b c) as (Hb & Hs & Hw & Hc).
    rewrite Hch, Hconn, Hst, Hwr, Hb, Hs, Hw, Hc.
    split; [lia|]. split; [|done].
    destruct rest as [|b' rest']; [done|].
    by rewrite !last_cons; destruct (last rest').
Qed.

Lemma update_noop (config : Partial) (c : RemoteServerConfig Store) :
  expected_writes config (baseUrl c) (token c) = [] → update config c = c.
Proof.
  unfold expected_writes, update. destruct c as [st wr conn ch].
  destruct config as [[b|] [t|]]; simpl;
    repeat match goal with
           | |- context [decide (?x = ?y :> string)] =>
               destruct (decide (x = y)) as [<-|]
           end; simpl; rewrite ?String.eqb_refl; done.
Qed.

(** X14. On a store that gives back what was last written, the getters
    read what [update] was given: after [update], [baseUrl] and [token]
    are the given values, or the previous ones for a field that was
    omitted. Hence a second [update] with the same argument changes
    nothing: it writes nothing and emits nothing. [update] never touches
    the connection state. *)
Theorem X14_update_is_read_back
    (config : Partial) (c : RemoteServerConfig Store) :
  store_laws →
  baseUrl (update config c) = default (baseUrl c) (new_baseUrl config)
  ∧ token (update config c) = default (token c) (new_token config)
  ∧ update config (update config c) = update config c
  ∧ _isConnected (update config c) = _isConnected c.
Proof.
  intros [Hget Hkeep].
  destruct (update_writes config c) as (_ & Hs & _ & Hconn).
  assert (PAGE_CONFIG_BASE_URL_KEY ≠ PAGE_CONFIG_TOKEN_KEY) as Hkeys by done.
  assert (baseUrl (update config c) = default (baseUrl c) (new_baseUrl config)
          ∧ token (update config c) = default (token c) (new_token config))
    as [Hb Ht].
  { unfold baseUrl at 1, token at 1. rewrite Hs. unfold expected_writes.
    destruct config as [[b|] [t|]]; simpl;
      repeat case_decide; subst; simpl;
      rewrite ?Hget, ?(Hkeep _ _ _ _ Hkeys),
        ?(Hkeep _ _ _ _ (not_eq_sym Hkeys)), ?Hget; done. }
  split; [done|]. split; [done|]. split; [|done].
  apply update_noop. rewrite Hb, Ht. unfold expected_writes.
  destruct config as [[b|] [t|]]; simpl; repeat case_decide; done.
Qed.

Lemma endsWith_cons c s p :
  endsWith (String c s) p = String.eqb (String c s) p || endsWith s p.
Proof. done. Qed.

Lemma endsWith_app_slash s : endsWith (s +:+ "/") "/" = true.
Proof.
  induction s as [|c s IH]; [done|].
  change (String c s +:+ "/") with (String c (s +:+ "/")).
  by rewrite endsWith_cons, IH, orb_true_r.
Qed.

Lemma withSlash_ends s : endsWith (withSlash s) "/" = true.
Proof.
  unfold withSlash. destruct (endsWith s "/") eqn:He; [done|].
  apply endsWith_app_slash.
Qed.

Lemma endsWith_slash_tail c s :
  s ≠ "" → endsWith (String c s) "/" = endsWith s "/".
Proof.
  intros Hs. rewrite endsWith_cons.
  destruct s as [|a s]; [done|].
  by destruct (String.eqb_spec (String c (String a s)) "/").
Qed.

Lemma replaceHttp_ends s :
  endsWith (replaceHttp s) "/" = endsWith s "/".
Proof.
  destruct s as [|c1 [|c2 [|c3 [|c4 r]]]]; try done;
    unfold replaceHttp; repeat case_match; done.
Qed.

Lemma replaceHttp_app_slash s :
  replaceHttp (s +:+ "/") = replaceHttp s +:+ "/".
Proof.
  destruct s as [|c1 [|c2 [|c3 [|c4 r]]]]; try done;
    unfold replaceHttp;
    repeat match goal with
           | |- context [String ?c ?s +:+ ?t] =>
               change (String c s +:+ t) with (String c (s +:+ t))
           | |- context [EmptyString +:+ ?t] =>
               change (EmptyString +:+ t) with t
           end;
    repeat case_match; subst; try done.
  by simplify_eq.
Qed.

(** X15. When a base URL is configured, the settings built by
    [createServerSettings] give it with exactly one slash appended unless
    it already ends with one, so the base URL they give always ends with
    a slash; and the WebSocket URL they give is that base URL with a
    leading [http] replaced by [ws]. When none is configured both come
    from the default settings. *)
Theorem X15_server_settings_urls (d : Defaults) (s : Store) :
  let configured := getOption PAGE_CONFIG_BASE_URL_KEY s in
  (configured = "" →
   settings_baseUrl d s = default_baseUrl d
   ∧ settings_wsUrl d s = default_wsUrl d)
  ∧ (configured ≠ "" →
     endsWith (settings_baseUrl d s) "/" = true
     ∧ settings_baseUrl d s
       = (if endsWith configured "/" then configured else configured +:+ "/")
     ∧ settings_wsUrl d s = replaceHttp (settings_baseUrl d s)).
Proof.
  intros configured. unfold settings_baseUrl, settings_wsUrl. fold configured.
  split.
  - by intros ->.
  - intros Hne. destruct (String.eqb_spec configured ""); [done|].
    split; [apply withSlash_ends|]. split; [done|].
    unfold withSlash. rewrite replaceHttp_ends.
    destruct (endsWith configured "/"); [done|].
    by rewrite replaceHttp_app_slash.
Qed.

(** X16. Closing the configuration dialog without accepting changes
    nothing. Accepting it with a base URL and a token first stores them
    as [update] does, then sets the connection state: connected exactly
    when the base URL is not empty and the request to its
    [api/kernelspecs] resolves with a success status; an empty base URL
    disconnects without any request being looked at. The command emits
    [changed] at most twice. *)
Theorem X16_configure_sets_connection `{Platform}
    (fetch : string → result KernelSpec.Response)
    (c : RemoteServerConfig Store) :
  configureRemoteServer None fetch c = c
  ∧ ∀ b t,
      let c' := configureRemoteServer (Some (b, t)) fetch c in
      let url :=
        KernelSpec.specsUrlWithToken
          {| KernelSpec.baseUrl := b; KernelSpec.token := t |} in
      _isConnected c'
      = negb (String.eqb b "")
        && match fetch url with
           | Ok response => KernelSpec.ok response
           | Throw _ => false
           end
      ∧ writes c'
        = writes c
          ++ expected_writes {| new_baseUrl := Some b; new_token := Some t |}
               (baseUrl c) (token c)
      ∧ changed c ≤ changed c' ≤ changed c + 2.
Proof.
  split; [done|]. intros b t c' url.
  set (config := {| new_baseUrl := Some b; new_token := Some t |}).
  destruct (update_writes config c) as (Hw & _ & Hch & _).
  assert (changed c ≤ changed (update config c) ≤ changed c + 1) as Hch'.
  { rewrite Hch. case_decide; lia. }
  assert (∃ state,
            c' = setConnected state (update config c)
            ∧ state = negb (String.eqb b "")
                      && match fetch url with
                         | Ok response => KernelSpec.ok response
                         | Throw _ => false
                         end) as (state & -> & <-).
  { unfold c', configureRemoteServer. fold config. fold url.
    destruct (String.eqb b ""); simpl; [by eexists|].
    destruct (fetch url); by eexists. }
  destruct (setConnected_fields state (update config c)) as (-> & _ & -> & ->).
  split; [done|]. split; [done|].
  destruct (eqb _ _); lia.
Qed.

End Configuration.

(* ===================================================================== *)
(** * parseJupyterUrl *)
(* ===================================================================== *)

Section ParseJupyterUrl.
Import Dialogs.

Lemma append_cons c s t : String c s +:+ t = String c (s +:+ t).
Proof. done. Qed.

Lemma append_nil_l t : "" +:+ t = t.
Proof. done. Qed.

Lemma append_assoc a b c : (a +:+ b) +:+ c = a +:+ b +:+ c.
Proof.
  induction a as [|x a IH]; [done|]. by rewrite !append_cons, IH.
Qed.

Lemma prefix_nil s : String.prefix "" s = true.
Proof. by destruct s. Qed.

Lemma prefix_app_self p x : String.prefix p (p +:+ x) = true.
Proof.
  induction p as [|c p IH]; [apply prefix_nil|].
  rewrite append_cons, prefix_cons. by destruct (ascii_dec c c).
Qed.

Lemma drop_string_app p x : drop_string (String.length p) (p +:+ x) = x.
Proof. induction p as [|c p IH]; [by destruct x|]. by rewrite append_cons. Qed.

Lemma take_string_app p x : take_string (String.length p) (p +:+ x) = p.
Proof.
  induction p as [|c p IH]; [by destruct x|].
  rewrite append_cons. simpl. by rewrite IH.
Qed.

Lemma prefix_drop p s :
  String.prefix p s = true → s = p +:+ drop_string (String.length p) s.
Proof.
  revert s. induction p as [|c p IH]; intros s Hp; [by destruct s|].
  destruct s as [|a s]; [done|]. rewrite prefix_cons in Hp.
  destruct (ascii_dec c a) as [->|]; [|done].
  rewrite append_cons. simpl. by rewrite <- IH.
Qed.

(** A prefix of [s +:+ t] is a prefix of [s] or runs over into [t]. *)
Lemma prefix_app_split p s t :
  String.prefix p (s +:+ t) = true →
  String.prefix p s = true
  ∨ ∃ p2, p2 ≠ "" ∧ p = s +:+ p2 ∧ String.prefix p2 t = true.
Proof.
  revert p. induction s as [|c s IH]; intros p Hp.
  - destruct p as [|a p]; [by left|]. right. by exists (String a p).
  - destruct p as [|a p]; [by left|].
    rewrite append_cons, prefix_cons in Hp.
    destruct (ascii_dec a c) as [->|]; [|done].
    destruct (IH p Hp) as [Hl|(p2 & Hne & -> & Hp2)].
    + left. rewrite prefix_cons. by destruct (ascii_dec c c).
    + right. by exists p2.
Qed.

Lemma has_slash_app s x : has_slash (s +:+ String "/" x) = true.
Proof.
  induction s as [|c s IH]; [done|].
  rewrite append_cons. simpl. by rewrite IH, orb_true_r.
Qed.

Lemma jupyterPaths_no_slash seg : seg ∈ jupyterPaths → has_slash seg = false.
Proof.
  intros Hin. unfold jupyterPaths in Hin.
  repeat (apply elem_of_cons in Hin as [->|Hin]; [done|]).
  by apply elem_of_nil in Hin.
Qed.

Lemma matches_here_segment s :
  matches_here s = true
  ↔ ∃ seg, seg ∈ jupyterPaths ∧ matches_segment seg s = true.
Proof.
  unfold matches_here. rewrite existsb_exists.
  split; intros (seg & Hin & Hm); exists seg;
    (split; [by apply list_elem_of_In|done]).
Qed.

(** A match that starts inside [s] and is seen in [s +:+ t], where [t]
    starts with a slash, is a match in [s] alone. *)
Lemma matches_here_app s t :
  matches_here (s +:+ t) = true → s ≠ "" → String.prefix "/" t = true →
  matches_here s = true.
Proof.
  rewrite !matches_here_segment.
  intros (seg & Hin & Hm) Hs Ht. exists seg. split; [done|].
  unfold matches_segment in *.
  apply andb_true_iff in Hm as [Hp Hrest].
  destruct (prefix_app_split _ _ _ Hp) as [Hl|(p2 & Hne & Heq & Hp2)].
  - rewrite Hl, andb_true_l. cbv zeta in *.
    pose proof (prefix_drop _ _ Hl) as Hsplit.
    change (String.length ("/" +:+ seg)) with (S (String.length seg)) in Hsplit.
    remember (drop_string (S (String.length seg)) s) as rest eqn:Hr.
    assert (drop_string (S (String.length seg)) (s +:+ t) = rest +:+ t) as Hd.
    { rewrite Hsplit at 1. rewrite append_assoc.
      apply (drop_string_app ("/" +:+ seg)). }
    rewrite Hd in Hrest.
    destruct rest as [|c r]; [done|].
    rewrite append_cons in Hrest.
    destruct (String.eqb_spec (String c (r +:+ t)) ""); [done|].
    destruct (String.eqb_spec (String c r) ""); [done|].
    rewrite orb_false_l in *. rewrite prefix_cons in *.
    destruct (ascii_dec "/" c); [apply prefix_nil|done].
  - exfalso.
    destruct s as [|c s]; [done|].
    destruct p2 as [|a p2]; [done|].
    destruct t as [|b t]; [done|].
    rewrite prefix_cons in Hp2, Ht.
    destruct (ascii_dec "/" b) as [<-|]; [|done].
    destruct (ascii_dec a "/") as [->|]; [|done].
    rewrite append_cons in Heq.
    injection Heq as _ Hseg. change ("" +:+ seg) with seg in Hseg.
    pose proof (jupyterPaths_no_slash seg Hin) as Hno.
    by rewrite Hseg, has_slash_app in Hno.
Qed.

Lemma matches_here_at_segment seg rest :
  seg ∈ jupyterPaths → rest = "" ∨ String.prefix "/" rest = true →
  matches_here ("/" +:+ seg +:+ rest) = true.
Proof.
  intros Hin Hrest. apply matches_here_segment. exists seg. split; [done|].
  unfold matches_segment. apply andb_true_iff. split.
  - apply (prefix_app_self ("/" +:+ seg)).
  - cbv zeta.
    change (drop_string (S (String.length seg)) ("/" +:+ seg +:+ rest))
      with (drop_string (String.length seg) (seg +:+ rest)).
    rewrite drop_string_app.
    destruct Hrest as [->| ->]; [done|apply orb_true_r].
Qed.

Lemma match_index_cons c s :
  match_index (String c s)
  = if matches_here (String c s) then Some 0 else S <$> match_index s.
Proof. done. Qed.

Lemma match_index_cut base tail :
  match_index base = None →
  matches_here tail = true → String.prefix "/" tail = true →
  match_index (base +:+ tail) = Some (String.length base).
Proof.
  intros Hbase Htail Hslash. induction base as [|c base IH].
  - rewrite append_nil_l. destruct tail as [|a tail]; [done|].
    by rewrite match_index_cons, Htail.
  - rewrite match_index_cons in Hbase.
    destruct (matches_here (String c base)) eqn:Hhere; [done|].
    destruct (match_index base) eqn:Hidx; [done|].
    rewrite append_cons, match_index_cons.
    destruct (matches_here (String c (base +:+ tail))) eqn:Hfull.
    + rewrite <- append_cons in Hfull.
      apply matches_here_app in Hfull; [congruence|done|done].
    + by rewrite IH.
Qed.

(** X17. [parseJupyterUrl] gives [null] when the URL does not parse, and
    the empty token when the URL carries none. When the path holds no
    Jupyter segment ([/lab], [/tree], [/notebooks], [/edit], [/terminals],
    [/consoles] or [/doc], followed by a slash or by the end), the base
    URL is the protocol, the host and the whole path less one trailing
    slash. When the path is a part without such a segment followed by
    one, everything from that segment on is cut off. *)
Theorem X17_parseJupyterUrl_cuts_at_the_jupyter_path (url : URL) :
  let parsed base :=
    Some {| baseUrl := protocol url +:+ "//" +:+ host url +:+ stripSlash base;
            token := default "" (token_param url) |} in
  parseJupyterUrl None = None
  ∧ (match_index (pathname url) = None →
     parseJupyterUrl (Some url) = parsed (pathname url))
  ∧ (∀ base seg rest,
       pathname url = base +:+ "/" +:+ seg +:+ rest →
       match_index base = None →
       seg ∈ jupyterPaths →
       rest = "" ∨ String.prefix "/" rest = true →
       parseJupyterUrl (Some url) = parsed base).
Proof.
  intros parsed. split; [done|]. unfold parseJupyterUrl, basePath, parsed.
  split.
  - by intros ->.
  - intros base seg rest -> Hbase Hseg Hrest.
    rewrite (match_index_cut base ("/" +:+ seg +:+ rest) Hbase
               (matches_here_at_segment seg rest Hseg Hrest)
               (prefix_app_self "/" (seg +:+ rest))).
    by rewrite take_string_app.
Qed.

Lemma X17_witness :
  parseJupyterUrl (Some binder_url)
  = Some {| baseUrl :=
              "https://hub.2i2c.mybinder.org/user/jupyterlab-jupyterlab-demo-7r632cge";
            token := "AMJL4AzxSeOAnv0F7gHsKQ" |}.
Proof.
  refine (proj2 (proj2 (X17_parseJupyterUrl_cuts_at_the_jupyter_path binder_url))
            "/user/jupyterlab-jupyterlab-demo-7r632cge" "lab" "/tree/demo"
            eq_refl eq_refl _ (or_intror eq_refl)).
  apply elem_of_cons. by left.
Defined.

End ParseJupyterUrl.

(* ===================================================================== *)
(** * The further properties on sample inputs *)
(* ===================================================================== *)


Lemma X3_witness :
  let c := Sample.serving hybrid (Some Sample.r_registry)
             (Some Sample.lite_registry) in
  let m := Sample.manager Sample.host_settings None in
  kernelspecs MoreSamples.hybrid_merged !! "ir" = Some MoreSamples.ir_raw.
Proof.
  intros c m.
  assert (@refreshSpecs browser c m = (emit MoreSamples.hybrid_merged m, Ok ()))
    as Href by (vm_compute; reflexivity).
  exact (proj2 (X3_hybrid_mode_keeps_server_entries (H:=browser) c m
                  MoreSamples.hybrid_merged eq_refl Href)
           "ir" MoreSamples.ir_raw eq_refl eq_refl).
Defined.

Lemma X4_witness :
  let c := Sample.serving remote (Some Sample.remote_registry)
             (Some Sample.lite_registry) in
  let m := Sample.manager MoreSamples.no_settings None in
  @refreshSpecs browser c m = (emit Sample.lite_registry m, Ok ()).
Proof.
  exact (X4_unconfigured_remote_mode_is_lite_only (H:=browser)
           (Sample.serving remote (Some Sample.remote_registry)
              (Some Sample.lite_registry))
           (Sample.manager MoreSamples.no_settings None) eq_refl eq_refl).
Defined.




Lemma X9_witness :
  Tasks.tasks (ClientTasks.shutdownAll MoreWorlds.in_order)
    (MoreWorlds.answering [Worlds.k1] [Worlds.k2])
  = [Tasks.sent Lite Tasks.ShutdownAll;
     Tasks.sent Server (Tasks.Single ListRunning);
     Tasks.sent Server (Tasks.Single (Shutdown "k2"))]
  ∧ Tasks.settled (ClientTasks.shutdownAll MoreWorlds.in_order)
      (MoreWorlds.offline [Worlds.k1]) = Ok ().
Proof.
  split.
  - exact (proj1 (proj2 (proj2 (X9_client_shutdownAll MoreWorlds.in_order
                                  (MoreWorlds.answering [Worlds.k1] [Worlds.k2]))
                          eq_refl))
             [Worlds.k2] eq_refl).
  - exact (proj1 (proj2 (X9_client_shutdownAll MoreWorlds.in_order
                           (MoreWorlds.offline [Worlds.k1])) eq_refl)).
Defined.

Lemma X10_witness :
  let sm := Worlds.sessionManager [Worlds.k1] [Worlds.k2] None in
  let w := MoreWorlds.answering [Worlds.k1] [Worlds.k2] in
  Managers.stopIfNeeded sm "missing.ipynb" w
  = ([Tasks.sent Server (Tasks.FindByPath "missing.ipynb");
      Tasks.sent Lite (Tasks.FindByPath "missing.ipynb")], Ok ())
  ∧ Managers.stopIfNeeded sm "python3" w
    = ([Tasks.sent Server (Tasks.FindByPath "python3");
        Tasks.sent Lite (Tasks.FindByPath "python3");
        Tasks.sent Lite (Tasks.Single (Shutdown "k1"))], Ok ()).
Proof.
  intros sm w. split.
  - exact (proj1 (X10_stopIfNeeded sm "missing.ipynb" w) eq_refl eq_refl).
  - exact (proj2 (proj2 (X10_stopIfNeeded sm "python3" w))
             Worlds.k1 eq_refl eq_refl).
Defined.

Lemma X12_witness :
  let specs := Some Sample.lite_registry in
  let sm := Worlds.sessionManager [] [] specs in
  let w := MoreWorlds.answering [] [] in
  Tasks.tasks (Promoter.promoteKernel specs sm MoreSamples.notebook_session) w
  = [Tasks.sent Lite (Tasks.Single (Shutdown "s1"));
     Tasks.sent Lite (Tasks.Single (StartNew (Some "python3")))].
Proof.
  intros specs sm w.
  destruct (proj2 (X12_promotion_restarts_on_the_lite_backend specs sm
                     MoreSamples.notebook_session w) eq_refl eq_refl)
    as (n & Hn & _ & Hrun).
  injection Hn as <-.
  unfold Tasks.tasks. by rewrite (Hrun eq_refl).
Defined.

Lemma dictionary_laws : @store_laws (gmap string string) Config.dictionary.
Proof.
  split.
  - intros k v s. simpl. by rewrite lookup_insert_eq.
  - intros k k' v s Hne. simpl. by rewrite lookup_insert_ne.
Defined.

Lemma X14_witness :
  let config :=
    {| Config.new_baseUrl := Some "https://other"; Config.new_token := None |} in
  Config.baseUrl (Config.update config Stores.configured) = "https://other"
  ∧ Config.token (Config.update config Stores.configured) = "abc".
Proof.
  intros config.
  destruct (X14_update_is_read_back config Stores.configured dictionary_laws)
    as (Hb & Ht & _).
  split; [exact Hb|exact Ht].
Defined.

Lemma X15_witness :
  let s := Config.store Stores.configured in
  ServerSettings.settings_baseUrl MoreSamples.defaults s = "https://host/prefix/"
  ∧ ServerSettings.settings_wsUrl MoreSamples.defaults s = "wss://host/prefix/".
Proof.
  intros s.
  destruct (proj2 (X15_server_settings_urls MoreSamples.defaults s))
    as (_ & Hb & Hw); [discriminate|].
  split; [exact Hb|]. rewrite Hw, Hb. reflexivity.
Defined.
